(** * Cultivia front end: the paragraph reveal of the chat transcript

    A shallow embedding of the client-side logic of
    [frontend/src/components]: the two reveal components ([ChatMessage] and
    [TypingMessage], both shipped in [ChatStyles.jsx]) and the two request
    handlers that feed them ([EventSearch.getChatResponse] and
    [ChatInterface.handleSubmit]).

    JavaScript strings are sequences of UTF-16 code units; a code unit is
    an [N].  Array reads out of range give [undefined], so the entries of
    a revealed list are values, not strings. *)

From Stdlib Require Import List ZArith NArith Bool Lia Ascii.
From Stdlib Require String.
Import ListNotations String.StringSyntax.

Local Open Scope string_scope.
Local Open Scope list_scope.

Set Implicit Arguments.

(* ================================================================== *)
(** ** JavaScript strings and arrays                                   *)
(* ================================================================== *)

Module JS.

Definition jsstring := list N.

(** The code unit of ['\n']. *)
Definition LF : N := 10%N.

(** A literal of ASCII characters. *)
Definition lit (s : String.string) : jsstring :=
  map N_of_ascii (String.list_ascii_of_string s).

(** Lines joined by ['\n'], for writing multi-line literals. *)
Fixpoint text (ls : list String.string) : jsstring :=
  match ls with
  | [] => []
  | [l] => lit l
  | l :: rest => lit l ++ LF :: text rest
  end.

(** [===] on strings. *)
Fixpoint str_eqb (a b : jsstring) : bool :=
  match a, b with
  | [], [] => true
  | x :: a', y :: b' => N.eqb x y && str_eqb a' b'
  | _, _ => false
  end.

(** WhiteSpace and LineTerminator of ECMAScript, the code units that
    [String.prototype.trim] strips: TAB, LF, VT, FF, CR, SP, NBSP, U+1680,
    U+2000..U+200A, LS, PS, U+202F, U+205F, U+3000 and the BOM. *)
Definition is_whitespace (c : N) : bool :=
  (existsb (N.eqb c)
     [9; 10; 11; 12; 13; 32; 160; 5760; 8232; 8233; 8239; 8287; 12288; 65279]
   || (N.leb 8192 c && N.leb c 8202))%N.

(** [s.split(sep)] for a one-unit separator: never an empty array. *)
Fixpoint split (sep : N) (s : jsstring) : list jsstring :=
  match s with
  | [] => [[]]
  | c :: r =>
      if N.eqb c sep then [] :: split sep r
      else match split sep r with
           | p :: ps => (c :: p) :: ps
           | [] => [[c]]
           end
  end.

(** [a.join(sep)] for a one-unit separator. *)
Fixpoint join (sep : N) (a : list jsstring) : jsstring :=
  match a with
  | [] => []
  | [p] => p
  | p :: rest => p ++ sep :: join sep rest
  end.

Fixpoint trimStart (s : jsstring) : jsstring :=
  match s with
  | [] => []
  | c :: r => if is_whitespace c then trimStart r else s
  end.

Definition trimEnd (s : jsstring) : jsstring := rev (trimStart (rev s)).

(** [s.trim()]. *)
Definition trim (s : jsstring) : jsstring := trimEnd (trimStart s).

(** [p !== ''] *)
Definition nonempty (p : jsstring) : bool :=
  match p with [] => false | _ :: _ => true end.

(** A [Set] of strings keeps its elements in insertion order; [add] of an
    element already present leaves the set as it is. *)
Definition Set_has (s : list jsstring) (x : jsstring) : bool :=
  existsb (str_eqb x) s.

Definition Set_add (s : list jsstring) (x : jsstring) : list jsstring :=
  if Set_has s x then s else s ++ [x].

(** [[...new Set(a)]]: the elements of [a] are added from left to right and
    the spread reads them back in insertion order. *)
Definition Set_spread (a : list jsstring) : list jsstring :=
  fold_left Set_add a [].

(** A JavaScript value that is a string or [undefined]. *)
Inductive value : Type :=
  | undefined
  | str (s : jsstring).

(** [a[i]] for an integer [i]: [undefined] outside [0 .. length-1]. *)
Definition get (a : list jsstring) (i : Z) : value :=
  if (i <? 0)%Z then undefined
  else match nth_error a (Z.to_nat i) with
       | Some s => str s
       | None => undefined
       end.

(** The strings among a list of values, in order. *)
Fixpoint strings (vs : list value) : list jsstring :=
  match vs with
  | [] => []
  | undefined :: r => strings r
  | str s :: r => s :: strings r
  end.

End JS.

Import JS.

(* ================================================================== *)
(** ** Deriving the paragraphs of a message                            *)
(* ================================================================== *)

(** [ChatMessage], lines 161-166:
    [[...new Set(message.content.split('\n').map(p => p.trim()).filter(p => p !== ''))]] *)
Definition uniqueParagraphs (content : jsstring) : list jsstring :=
  Set_spread (filter nonempty (map trim (split LF content))).

(** [TypingMessage], line 98:
    [content.split('\n').filter(p => p.trim() !== '')] *)
Definition paragraphs (content : jsstring) : list jsstring :=
  filter (fun p => nonempty (trim p)) (split LF content).

(** The Unit sequence in the words of the specification: split on line
    breaks, trim each piece, drop the pieces that are empty after trimming,
    and remove duplicates keeping the first occurrence. *)
Fixpoint keep_first (l : list jsstring) : list jsstring :=
  match l with
  | [] => []
  | x :: r => x :: filter (fun y => negb (str_eqb y x)) (keep_first r)
  end.

Definition spec_units (content : jsstring) : list jsstring :=
  keep_first (filter nonempty (map trim (split LF content))).

(** A string that does not begin with white space. *)
Definition starts_clean (s : jsstring) : Prop :=
  match s with
  | [] => True
  | c :: _ => is_whitespace c = false
  end.

(* ================================================================== *)
(** ** The timers of the event loop                                    *)
(* ================================================================== *)

Module Timers.

(** A timer armed by [setTimeout] ([period = None]) or by [setInterval]
    ([period = Some d]).  [owner] names the closure it calls. *)
Record timer : Type := {
  handle : nat;
  due : Z;
  period : option Z;
  owner : nat
}.

Record pool : Type := {
  clock : Z;
  pending : list timer;
  next_handle : nat
}.

Definition empty : pool :=
  {| clock := 0; pending := []; next_handle := 1 |}.

Definition arm (per : option Z) (ow : nat) (delay : Z) (p : pool)
  : nat * pool :=
  (next_handle p,
   {| clock := clock p;
      pending := pending p ++
        [{| handle := next_handle p; due := clock p + delay;
            period := per; owner := ow |}];
      next_handle := S (next_handle p) |}).

Definition setTimeout (ow : nat) (delay : Z) (p : pool) : nat * pool :=
  arm None ow delay p.

Definition setInterval (ow : nat) (delay : Z) (p : pool) : nat * pool :=
  arm (Some delay) ow delay p.

(** [clearTimeout(h)] and [clearInterval(h)]: one pool of handles; a
    handle that is not pending is ignored. *)
Definition clear (h : nat) (p : pool) : pool :=
  {| clock := clock p;
     pending := filter (fun t => negb (Nat.eqb (handle t) h)) (pending p);
     next_handle := next_handle p |}.

(** Time passes: the clock never runs backwards. *)
Definition advance (t : Z) (p : pool) : pool :=
  {| clock := Z.max (clock p) t;
     pending := pending p;
     next_handle := next_handle p |}.

(** The timer that fires next: the earliest due, and among timers due at
    the same time the one armed first. *)
Fixpoint earliest (l : list timer) : option timer :=
  match l with
  | [] => None
  | t :: r =>
      match earliest r with
      | Some u => if (due u <? due t)%Z then Some u else Some t
      | None => Some t
      end
  end.

(** The next timer fires: a timeout leaves the pool, an interval is armed
    again one period later. *)
Definition fire (p : pool) : option (timer * pool) :=
  match earliest (pending p) with
  | None => None
  | Some t =>
      let rest :=
        filter (fun u => negb (Nat.eqb (handle u) (handle t))) (pending p) in
      let now := Z.max (clock p) (due t) in
      Some (t,
            {| clock := now;
               pending :=
                 match period t with
                 | Some d =>
                     rest ++ [{| handle := handle t; due := now + d;
                                 period := Some d; owner := owner t |}]
                 | None => rest
                 end;
               next_handle := next_handle p |})
  end.

Definition idle (p : pool) : bool :=
  match pending p with [] => true | _ :: _ => false end.

End Timers.

(* ================================================================== *)
(** ** State updaters                                                  *)
(* ================================================================== *)

(** [setState(prev => ...)] hands React a function.  React documents that
    it queues the function and calls it during the next render, that is
    after the callback that queued it has returned ([AtRender]).  When no
    update of the component is pending, as after a render that its parent
    caused, React computes the next state at once, inside the call
    ([AtCall]), and uses that result at the render.  Which of the two
    applies to a call depends on what was rendered before it, so every
    tick names its own.  Both reveal callbacks read their cursor inside
    the updater and increment it right after the call, so the entry the
    updater reads depends on this. *)
Inductive updater_time : Type := AtCall | AtRender.

(** [l[i] := x] on the list of closures. *)
Fixpoint store {A : Type} (i : nat) (x : A) (l : list A) : list A :=
  match l, i with
  | [], _ => []
  | _ :: r, O => x :: r
  | y :: r, S j => y :: store j x r
  end.

(** What a reveal callback has appended after [k] calls, for the captured
    paragraphs [us]: read at render the cursor is one ahead and the last
    read falls off the end; read at the call the first read is at -1. *)
Definition revealed (m : updater_time) (us : list jsstring) (k : nat)
  : list value :=
  match m with
  | AtRender =>
      map str (firstn k us) ++
      (if Nat.ltb (length us) k then [undefined] else [])
  | AtCall =>
      match k with
      | O => []
      | S j => undefined :: map str (firstn j us)
      end
  end.

(* ================================================================== *)
(** ** ChatMessage                                                     *)
(* ================================================================== *)

Module ChatMessage.

(** What one run of the effect captures for [showNextParagraph]. *)
Record closure : Type := {
  captured : list jsstring;      (* uniqueParagraphs *)
  currentIndex : Z
}.

Record state : Type := {
  visibleParagraphs : list value;
  closures : list closure;
  timers : Timers.pool;
  cleanup : option nat;          (* the handle [clearTimeout(timer)] names *)
  deps : option (jsstring * bool)
}.

(** [useState([])], no effect run yet. *)
Definition initial : state :=
  {| visibleParagraphs := [];
     closures := [];
     timers := Timers.empty;
     cleanup := None;
     deps := None |}.

(** The function the effect returned for its clean-up, if any. *)
Definition run_cleanup (st : state) : state :=
  match cleanup st with
  | Some h =>
      {| visibleParagraphs := visibleParagraphs st;
         closures := closures st;
         timers := Timers.clear h (timers st);
         cleanup := None;
         deps := deps st |}
  | None => st
  end.

(** The body of [useEffect], lines 159-185. *)
Definition effect (content : jsstring) (isUser : bool) (st : state) : state :=
  let up := uniqueParagraphs content in
  if negb isUser then
    let env := length (closures st) in
    let '(timer, pool) := Timers.setTimeout env 100 (timers st) in
    {| visibleParagraphs := [];
       closures := closures st ++ [{| captured := up; currentIndex := -1 |}];
       timers := pool;
       cleanup := Some timer;
       deps := Some (content, isUser) |}
  else
    {| visibleParagraphs := map str up;
       closures := closures st;
       timers := timers st;
       cleanup := None;
       deps := Some (content, isUser) |}.

(** [showNextParagraph], lines 172-178, for the closure [env]. *)
Definition showNextParagraph (m : updater_time) (env : nat) (st : state)
  : state :=
  match nth_error (closures st) env with
  | None => st
  | Some c =>
      if (currentIndex c <? Z.of_nat (length (captured c)))%Z then
        let c' := {| captured := captured c;
                     currentIndex := currentIndex c + 1 |} in
        let seen := match m with AtCall => c | AtRender => c' end in
        {| visibleParagraphs :=
             visibleParagraphs st ++ [get (captured seen) (currentIndex seen)];
           closures := store env c' (closures st);
           timers := snd (Timers.setTimeout env 800 (timers st));
           cleanup := cleanup st;
           deps := deps st |}
      else st
  end.

Inductive event : Type :=
  | Props (t : Z) (content : jsstring) (isUser : bool)
      (* the component is rendered at time [t] with these props *)
  | Tick (m : updater_time).
      (* the next pending timer fires; React calls the updater of its
         callback at [m] *)

Definition same_deps (d : option (jsstring * bool)) (content : jsstring)
  (isUser : bool) : bool :=
  match d with
  | Some (c, u) => str_eqb c content && Bool.eqb u isUser
  | None => false
  end.

Definition with_timers (st : state) (p : Timers.pool) : state :=
  {| visibleParagraphs := visibleParagraphs st;
     closures := closures st;
     timers := p;
     cleanup := cleanup st;
     deps := deps st |}.

(** React runs the effect after the first render and after each render in
    which [message.content] or [isUser] changed, the previous clean-up
    first. *)
Definition step (st : state) (e : event) : state :=
  match e with
  | Props t content isUser =>
      let st := with_timers st (Timers.advance t (timers st)) in
      if same_deps (deps st) content isUser then st
      else effect content isUser (run_cleanup st)
  | Tick m =>
      match Timers.fire (timers st) with
      | None => st
      | Some (tm, p) =>
          showNextParagraph m (Timers.owner tm) (with_timers st p)
      end
  end.

Definition run (st : state) (es : list event) : state :=
  fold_left step es st.

(** A session: the message is mounted at time 0, then the pending timers
    fire one after the other, one for each entry of the schedule. *)
Definition start (content : jsstring) (isUser : bool) : state :=
  effect content isUser initial.

Definition ticks (sched : list updater_time) (st : state) : state :=
  run st (map Tick sched).

(** The session still has a timer to fire. *)
Definition active (st : state) : bool := negb (Timers.idle (timers st)).

(** What the component shows, lines 193-211: the content as it is for a
    user message, the visible paragraphs otherwise. *)
Definition render (content : jsstring) (isUser : bool) (st : state)
  : jsstring + list value :=
  if isUser then inl content else inr (visibleParagraphs st).

(** Every closure is over the paragraphs [us], and every string revealed
    is one of them. *)
Definition reveals_only (us : list jsstring) (st : state) : Prop :=
  (forall cl, In cl (closures st) -> captured cl = us) /\
  (forall s, In s (strings (visibleParagraphs st)) -> In s us).

End ChatMessage.

(* ================================================================== *)
(** ** TypingMessage                                                   *)
(* ================================================================== *)

Module TypingMessage.

(** What one run of the effect captures for the interval callback. *)
Record closure : Type := {
  captured : list jsstring;      (* paragraphs *)
  currentParagraphIndex : Z;
  typingInterval : nat
}.

Record state : Type := {
  displayedParagraphs : list value;
  isTyping : bool;
  contentRef : jsstring;
  closures : list closure;
  timers : Timers.pool;
  cleanup : option nat;          (* the handle [clearInterval] names *)
  deps : option jsstring
}.

(** [useState([])], [useState(true)], [useRef(content)]. *)
Definition initial (content : jsstring) : state :=
  {| displayedParagraphs := [];
     isTyping := true;
     contentRef := content;
     closures := [];
     timers := Timers.empty;
     cleanup := None;
     deps := None |}.

Definition run_cleanup (st : state) : state :=
  match cleanup st with
  | Some h =>
      {| displayedParagraphs := displayedParagraphs st;
         isTyping := isTyping st;
         contentRef := contentRef st;
         closures := closures st;
         timers := Timers.clear h (timers st);
         cleanup := None;
         deps := deps st |}
  | None => st
  end.

(** The body of [useEffect], lines 89-112.  [!content] holds of the empty
    string only. *)
Definition effect (content : jsstring) (st : state) : state :=
  if negb (nonempty content) then
    {| displayedParagraphs := [];
       isTyping := true;
       contentRef := content;
       closures := closures st;
       timers := timers st;
       cleanup := None;
       deps := Some content |}
  else
    let env := length (closures st) in
    let '(h, pool) := Timers.setInterval env 600 (timers st) in
    {| displayedParagraphs := [];
       isTyping := true;
       contentRef := content;
       closures := closures st ++
         [{| captured := paragraphs content;
             currentParagraphIndex := -1;
             typingInterval := h |}];
       timers := pool;
       cleanup := Some h;
       deps := Some content |}.

(** The callback of [setInterval], lines 101-109, for the closure [env]. *)
Definition callback (m : updater_time) (env : nat) (st : state) : state :=
  match nth_error (closures st) env with
  | None => st
  | Some c =>
      if (currentParagraphIndex c <? Z.of_nat (length (captured c)))%Z then
        let c' := {| captured := captured c;
                     currentParagraphIndex := currentParagraphIndex c + 1;
                     typingInterval := typingInterval c |} in
        let seen := match m with AtCall => c | AtRender => c' end in
        {| displayedParagraphs :=
             displayedParagraphs st ++
               [get (captured seen) (currentParagraphIndex seen)];
           isTyping := isTyping st;
           contentRef := contentRef st;
           closures := store env c' (closures st);
           timers := timers st;
           cleanup := cleanup st;
           deps := deps st |}
      else
        {| displayedParagraphs := displayedParagraphs st;
           isTyping := false;
           contentRef := contentRef st;
           closures := closures st;
           timers := Timers.clear (typingInterval c) (timers st);
           cleanup := cleanup st;
           deps := deps st |}
  end.

Inductive event : Type :=
  | Props (t : Z) (content : jsstring)
  | Tick (m : updater_time).

Definition same_deps (d : option jsstring) (content : jsstring) : bool :=
  match d with
  | Some c => str_eqb c content
  | None => false
  end.

Definition with_timers (st : state) (p : Timers.pool) : state :=
  {| displayedParagraphs := displayedParagraphs st;
     isTyping := isTyping st;
     contentRef := contentRef st;
     closures := closures st;
     timers := p;
     cleanup := cleanup st;
     deps := deps st |}.

Definition step (st : state) (e : event) : state :=
  match e with
  | Props t content =>
      let st := with_timers st (Timers.advance t (timers st)) in
      if same_deps (deps st) content then st
      else effect content (run_cleanup st)
  | Tick m =>
      match Timers.fire (timers st) with
      | None => st
      | Some (tm, p) => callback m (Timers.owner tm) (with_timers st p)
      end
  end.

Definition run (st : state) (es : list event) : state :=
  fold_left step es st.

(** A session: the component is mounted at time 0, then the interval
    fires once for each entry of the schedule. *)
Definition start (content : jsstring) : state :=
  effect content (initial content).

Definition ticks (sched : list updater_time) (st : state) : state :=
  run st (map Tick sched).

(** What the component returns: nothing for an empty [content], else the
    displayed paragraphs and whether the typing indicator is shown. *)
Definition render (content : jsstring) (st : state)
  : option (list value * bool) :=
  if negb (nonempty content) then None
  else Some (displayedParagraphs st, isTyping st).

(** Every pending timer is the interval of the current content: it calls
    a closure over the paragraphs of that content, and it is the one the
    clean-up clears.  Every displayed string is a paragraph of the current
    content. *)
Definition current (st : state) : Prop :=
  (forall s, In s (strings (displayedParagraphs st)) ->
     exists c, deps st = Some c /\ In s (paragraphs c)) /\
  (forall t, In t (Timers.pending (timers st)) ->
     exists c cl, deps st = Some c /\
       nth_error (closures st) (Timers.owner t) = Some cl /\
       captured cl = paragraphs c /\
       typingInterval cl = Timers.handle t /\
       cleanup st = Some (Timers.handle t)).

End TypingMessage.

(* ================================================================== *)
(** ** EventSearch: the chat request                                   *)
(* ================================================================== *)

Module EventSearch.

(** The code unit of ['H']. *)
Definition H : N := 72%N.

Fixpoint count_prefix (c : N) (s : jsstring) : nat :=
  match s with
  | x :: r => if N.eqb x c then S (count_prefix c r) else 0
  | [] => 0
  end.

(** [/([H])\1+/] tried at the head of [s]: the group takes one ['H'], the
    back-reference repeats it at least once and as often as it can.  The
    result is the length of the match. *)
Definition match_HH (s : jsstring) : option nat :=
  match s with
  | c :: r =>
      if N.eqb c H then
        match count_prefix c r with
        | O => None
        | S n => Some (S (S n))
        end
      else None
  | [] => None
  end.

(** [s.replace(re, repl)] for a global [re] given by its matcher: the
    string is scanned from the left, a match is replaced and the scan
    resumes after it.  [skip] counts the units of the current match that
    are still to be passed over. *)
Fixpoint replace_all (re : jsstring -> option nat) (repl : jsstring)
  (skip : nat) (s : jsstring) : jsstring :=
  match s with
  | [] => []
  | c :: r =>
      match skip with
      | S k => replace_all re repl k r
      | O =>
          match re s with
          | Some (S n) => repl ++ replace_all re repl n r
          | _ => c :: replace_all re repl 0 r
          end
      end
  end.

(** [message.replace(/([H])\1+/g, '')] *)
Definition strip (message : jsstring) : jsstring :=
  replace_all match_HH [] 0 message.

Inductive sender : Type := user | system.

Record message : Type := {
  id : N;                        (* Date.now() *)
  type : sender;
  content : jsstring
}.

Record state : Type := {
  messages : list message;
  isLoadingChat : bool
}.

(** What [await fetch(...)] followed by [await chatResponse.json()] gives:
    a rejection (the network failed, or the body is not JSON), or the
    parsed body with its [message] field, absent or a string. *)
Inductive reply : Type :=
  | Rejected
  | Parsed (message : option jsstring).

(** "Désolé, une erreur s'est produite lors de la génération de la réponse." *)
Definition fallback : jsstring :=
  lit "D" ++ [233%N] ++ lit "sol" ++ [233%N] ++
  lit ", une erreur s'est produite lors de la g" ++ [233%N] ++ lit "n" ++
  [233%N] ++ lit "ration de la r" ++ [233%N] ++ lit "ponse.".

(** [getChatResponse], lines 50-82, once the request has settled at time
    [now]. *)
Definition getChatResponse (now : N) (r : reply) (st : state) : state :=
  match r with
  | Parsed (Some ((_ :: _) as m)) =>
      {| messages := messages st ++
           [{| id := now; type := system; content := strip m |}];
         isLoadingChat := false |}
  | Parsed _ =>
      {| messages := messages st; isLoadingChat := false |}
  | Rejected =>
      {| messages := messages st ++
           [{| id := now; type := system; content := fallback |}];
         isLoadingChat := false |}
  end.

(** [message.type === 'user'] *)
Definition isUser (m : message) : bool :=
  match type m with user => true | system => false end.

(** [MessagesContainer] hands every message to a [ChatMessage]. *)
Definition mount (m : message) : ChatMessage.state :=
  ChatMessage.start (content m) (isUser m).

(** The deletion in the words of the claim: the string is cut into its
    maximal runs of equal code units, and the runs of two or more ['H']
    are dropped. *)
Fixpoint runs (s : jsstring) : list (N * nat) :=
  match s with
  | [] => []
  | c :: r =>
      match runs r with
      | (d, n) :: t => if N.eqb c d then (d, S n) :: t
                       else (c, 1) :: (d, n) :: t
      | [] => [(c, 1)]
      end
  end.

Definition expand (rs : list (N * nat)) : jsstring :=
  flat_map (fun '(c, n) => repeat c n) rs.

Definition long_H_run (r : N * nat) : bool :=
  N.eqb (fst r) H && Nat.leb 2 (snd r).

(** Two adjacent ['H'] somewhere in the string. *)
Fixpoint has_HH (s : jsstring) : bool :=
  match s with
  | [] => false
  | a :: r =>
      match r with
      | [] => false
      | b :: _ => (N.eqb a H && N.eqb b H) || has_HH r
      end
  end.

Definition without_H_runs (s : jsstring) : jsstring :=
  expand (filter (fun r => negb (long_H_run r)) (runs s)).

End EventSearch.

(* ================================================================== *)
(** ** ChatInterface: the chat request                                 *)
(* ================================================================== *)

Module ChatInterface.

Record message : Type := {
  text : jsstring;
  isUser : bool
}.

(** The settled request: a rejection, or the parsed body with
    [data.status === 'success'] and [data.response]. *)
Inductive reply : Type :=
  | Rejected
  | Parsed (success : bool) (response : jsstring).

(** "Désolé, une erreur est survenue." *)
Definition refused : jsstring :=
  lit "D" ++ [233%N] ++ lit "sol" ++ [233%N] ++ lit ", une erreur est survenue.".

(** "Désolé, une erreur est survenue lors de la communication avec le serveur." *)
Definition unreachable : jsstring :=
  lit "D" ++ [233%N] ++ lit "sol" ++ [233%N] ++
  lit ", une erreur est survenue lors de la communication avec le serveur.".

(** [handleSubmit], lines 8-54, with the request settled as [r]. *)
Definition handleSubmit (input : jsstring) (r : reply)
  (messages : list message) : list message :=
  if negb (nonempty (trim input)) then messages
  else
    let messages := messages ++ [{| text := input; isUser := true |}] in
    match r with
    | Parsed true response =>
        messages ++ [{| text := response; isUser := false |}]
    | Parsed false _ =>
        messages ++ [{| text := refused; isUser := false |}]
    | Rejected =>
        messages ++ [{| text := unreachable; isUser := false |}]
    end.

(** The lines a message is laid out in: [message.text.split('\n')]. *)
Definition lines (m : message) : list jsstring := split LF (text m).

End ChatInterface.

(* ================================================================== *)
(** ** ChatInterface: the transcript                                   *)
(* ================================================================== *)

Module ChatTranscript.

(** [a.map((x, i) => f(i, x))], the indices counted from [i]. *)
Fixpoint mapi_from {A B : Type} (f : nat -> A -> B) (i : nat) (l : list A)
  : list B :=
  match l with
  | [] => []
  | x :: r => f i x :: mapi_from f (S i) r
  end.

(** The [<span>]s of a message, lines 75-80: each line of the text, and
    whether a [<br />] follows it ([i !== length - 1]). *)
Definition spans (m : ChatInterface.message) : list (jsstring * bool) :=
  let ls := split LF (ChatInterface.text m) in
  mapi_from
    (fun (i : nat) (line : jsstring) =>
       (line, negb (Z.eqb (Z.of_nat i) (Z.of_nat (length ls) - 1))))
    0 ls.

(** What the spans read as, a [<br />] being a line break. *)
Definition reading (sp : list (jsstring * bool)) : jsstring :=
  flat_map
    (fun s : jsstring * bool => fst s ++ (if snd s then [LF] else []))
    sp.

(** Questions submitted one after the other, each request settled before
    the next question is sent. *)
Definition submit_all (subs : list (jsstring * ChatInterface.reply))
  (messages : list ChatInterface.message) : list ChatInterface.message :=
  fold_left
    (fun ms (s : jsstring * ChatInterface.reply) =>
       ChatInterface.handleSubmit (fst s) (snd s) ms)
    subs messages.

(** [input.trim()] is not empty. *)
Definition asked (s : jsstring * ChatInterface.reply) : bool :=
  nonempty (trim (fst s)).

End ChatTranscript.

(* ================================================================== *)
(** ** EventSearch: the code units the replacement keeps               *)
(* ================================================================== *)

Module Replacement.

(** A code unit other than ['H']. *)
Definition not_H (x : N) : bool := negb (N.eqb x EventSearch.H).

End Replacement.

(* ================================================================== *)
(** ** EventSearch: one query                                          *)
(* ================================================================== *)

Module Query.

(** A field of the parsed reply as [||] and [&&] see it: [undefined] when
    the field is absent, a string, or any other value (null, a boolean, a
    number, an array, an object).  Of a value that is no string they only
    ask whether it is truthy; [which] tells two such values apart. *)
Inductive json : Type :=
  | jundefined
  | jstring (s : jsstring)
  | jother (is_truthy : bool) (which : N).

(** A string that is not empty is truthy; [undefined] and [''] are not. *)
Definition truthy (v : json) : bool :=
  match v with
  | jundefined => false
  | jstring [] => false
  | jstring (_ :: _) => true
  | jother t _ => t
  end.

(** [a || b] *)
Definition or_else (a b : json) : json := if truthy a then a else b.

Section Events.

(** The fields of an event that [EventSearch] does not look at, the
    prompt events and the target date go through untouched. *)
Variables A P D : Type.

(** An event of the search reply: its [url]; the [event_url] of its
    [metadata] when [metadata] is an object, [None] when [event.metadata]
    is falsy or has no fields; and the rest. *)
Record event : Type := {
  url : json;
  metadata : option json;
  other : A
}.

(** [event.metadata && event.metadata.event_url], up to which falsy value
    it is when [event.metadata] is falsy. *)
Definition metadata_url (e : event) : json :=
  match metadata e with
  | None => jundefined
  | Some v => v
  end.

(** Lines 32-35:
    [{...event, url: event.url || (event.metadata && event.metadata.event_url) || ''}] *)
Definition process (e : event) : event :=
  {| url := or_else (or_else (url e) (metadata_url e)) (jstring []);
     metadata := metadata e;
     other := other e |}.

(** What [await fetch(...)] and [await searchResponse.json()] give: a
    rejection, or the parsed body with [events] when it is an array. *)
Inductive search_reply : Type :=
  | SearchRejected
  | SearchParsed (events : option (list event))
      (prompt_events : option (list P)) (target_date : D).

Record app : Type := {
  messages : list EventSearch.message;
  events : list event;
  userInput : jsstring;
  isLoadingEvents : bool;
  isLoadingChat : bool
}.

Definition set_messages (ms : list EventSearch.message) (s : app) : app :=
  {| messages := ms; events := events s; userInput := userInput s;
     isLoadingEvents := isLoadingEvents s; isLoadingChat := isLoadingChat s |}.

Definition set_events (es : list event) (s : app) : app :=
  {| messages := messages s; events := es; userInput := userInput s;
     isLoadingEvents := isLoadingEvents s; isLoadingChat := isLoadingChat s |}.

Definition set_userInput (i : jsstring) (s : app) : app :=
  {| messages := messages s; events := events s; userInput := i;
     isLoadingEvents := isLoadingEvents s; isLoadingChat := isLoadingChat s |}.

Definition set_isLoadingEvents (b : bool) (s : app) : app :=
  {| messages := messages s; events := events s; userInput := userInput s;
     isLoadingEvents := b; isLoadingChat := isLoadingChat s |}.

Definition set_isLoadingChat (b : bool) (s : app) : app :=
  {| messages := messages s; events := events s; userInput := userInput s;
     isLoadingEvents := isLoadingEvents s; isLoadingChat := b |}.

(** [searchEvents], lines 20-48: the states it goes through, one for each
    state it sets, and what it returns ([None] for [undefined]). *)
Definition searchEvents (r : search_reply) (s : app)
  : list app * option (list P * D) :=
  let s1 := set_isLoadingEvents true s in
  match r with
  | SearchParsed (Some evs) pe td =>
      let s2 := set_events (map process evs) s1 in
      ([s1; s2; set_isLoadingEvents false s2],
       Some (match pe with Some l => l | None => [] end, td))
  | _ => ([s1; set_isLoadingEvents false s1], None)
  end.

(** [getChatResponse], lines 50-82, as the states it goes through. *)
Definition getChatResponse (now : N) (r : EventSearch.reply) (s : app)
  : list app :=
  let s1 := set_isLoadingChat true s in
  let settled :=
    EventSearch.getChatResponse now r
      {| EventSearch.messages := messages s1;
         EventSearch.isLoadingChat := isLoadingChat s1 |} in
  let s2 := set_messages (EventSearch.messages settled) s1 in
  [s1; s2; set_isLoadingChat (EventSearch.isLoadingChat settled) s2].

Definition final (s : app) (trace : list app) : app := last trace s.

(** [handleSubmit], lines 84-101: the states the application goes through
    when the form is submitted in the state [s], the search settling as
    [sr] and the chat request, if it is sent, as [cr]. *)
Definition handleSubmit (now now' : N) (sr : search_reply)
  (cr : EventSearch.reply) (s : app) : list app :=
  if negb (nonempty (trim (userInput s))) then []
  else
    let s1 :=
      set_messages
        (messages s ++
         [{| EventSearch.id := now; EventSearch.type := EventSearch.user;
             EventSearch.content := userInput s |}]) s in
    let s2 := set_userInput [] s1 in
    let '(searching, searchResult) := searchEvents sr s2 in
    let s3 := final s2 searching in
    [s1; s2] ++ searching ++
    match searchResult with
    | Some _ => getChatResponse now' cr s3
    | None => []
    end.

(** [disabled={isLoadingEvents && isLoadingChat}] of the input and of the
    button. *)
Definition disabled (s : app) : bool := isLoadingEvents s && isLoadingChat s.

End Events.

End Query.

(* ================================================================== *)
(** ** EventsList                                                      *)
(* ================================================================== *)

Module EventsList.

(** [expandedCards]: an object whose keys are card indices. *)
Definition object := list (nat * bool).

(** [o[k]], [None] for [undefined]. *)
Fixpoint obj_get (o : object) (k : nat) : option bool :=
  match o with
  | [] => None
  | (j, v) :: r => if Nat.eqb j k then Some v else obj_get r k
  end.

(** [{...o, [k]: v}] *)
Fixpoint obj_set (o : object) (k : nat) (v : bool) : object :=
  match o with
  | [] => [(k, v)]
  | (j, w) :: r => if Nat.eqb j k then (j, v) :: r else (j, w) :: obj_set r k v
  end.

(** [!v] *)
Definition not_ (v : option bool) : bool :=
  match v with
  | Some true => false
  | _ => true
  end.

(** [v] in a condition. *)
Definition truthy (v : option bool) : bool := negb (not_ v).

Record state : Type := {
  expandedCards : object;
  visibleEvents : nat
}.

(** [useState({})], [useState(5)]. *)
Definition initial : state :=
  {| expandedCards := []; visibleEvents := 5 |}.

(** Lines 142-147. *)
Definition handleToggleExpand (index : nat) (st : state) : state :=
  {| expandedCards :=
       obj_set (expandedCards st) index
         (not_ (obj_get (expandedCards st) index));
     visibleEvents := visibleEvents st |}.

(** Lines 149-151. *)
Definition handleLoadMore (st : state) : state :=
  {| expandedCards := expandedCards st;
     visibleEvents := visibleEvents st + 5 |}.

(** Line 153. *)
Definition hasMoreEvents {E : Type} (events : list E) (st : state) : bool :=
  Nat.ltb (visibleEvents st) (length events).

(** [events.slice(0, visibleEvents)], line 179. *)
Definition slice {E : Type} (events : list E) (st : state) : list E :=
  firstn (visibleEvents st) events.

(** What [EventsList] returns, lines 158-208: while [isLoading], a spinner
    and nothing else; otherwise the heading with the number of events, a
    card for each event of the slice and, when [hasMoreEvents], the
    button. *)
Record view (E : Type) : Type := {
  spinner : bool;
  heading : option nat;
  cards : list E;
  button : bool
}.

Definition render {E : Type} (events : list E) (isLoading : bool)
  (st : state) : view E :=
  if isLoading then
    {| spinner := true; heading := None; cards := []; button := false |}
  else
    {| spinner := false;
       heading := Some (length events);
       cards := slice events st;
       button := hasMoreEvents events st |}.

(** [isExpanded={expandedCards[index]}] as the card uses it. *)
Definition isExpanded (st : state) (index : nat) : bool :=
  truthy (obj_get (expandedCards st) index).

Definition clicks (k : nat) (st : state) : state :=
  Nat.iter k handleLoadMore st.

End EventsList.

(* ================================================================== *)
(** ** AnimatedEventCard                                               *)
(* ================================================================== *)

Module AnimatedEventCard.

(** The cards of a list: [isVisible] of each, and their timeouts. *)
Record state : Type := {
  isVisible : list bool;
  timers : Timers.pool
}.

Definition empty : state := {| isVisible := []; timers := Timers.empty |}.

(** [setTimeout(f, delay)] waits at least 0 ms. *)
Definition setTimeout (ow : nat) (delay : Z) (p : Timers.pool)
  : nat * Timers.pool :=
  Timers.setTimeout ow (Z.max 0 delay) p.

(** A card is mounted with the prop [index]: [useState(false)], and the
    effect arms [setTimeout(() => setIsVisible(true), 150 * index)]. *)
Definition mount (index : Z) (st : state) : state :=
  {| isVisible := isVisible st ++ [false];
     timers := snd (setTimeout (length (isVisible st)) (150 * index)
                      (timers st)) |}.

(** [EventsList], lines 179-184: the card at position [i] of the list gets
    [index={i - 1}].  The cards at the positions [from .. from + n - 1] are
    mounted together. *)
Fixpoint mount_cards (from n : nat) (st : state) : state :=
  match n with
  | O => st
  | S n' => mount_cards (S from) n' (mount (Z.of_nat from - 1) st)
  end.

(** The next timeout fires: its card becomes visible. *)
Definition tick (st : state) : state :=
  match Timers.fire (timers st) with
  | None => st
  | Some (tm, p) =>
      {| isVisible := store (Timers.owner tm) true (isVisible st);
         timers := p |}
  end.

Definition ticks (k : nat) (st : state) : state := Nat.iter k tick st.

(** The timeout of the card at position [i] of a list mounted at time 0,
    the handles counted from 1. *)
Definition card_timer (i : nat) : Timers.timer :=
  {| Timers.handle := S i;
     Timers.due := Z.max 0 (150 * (Z.of_nat i - 1));
     Timers.period := None;
     Timers.owner := i |}.

End AnimatedEventCard.

(* ================================================================== *)
(** ** ChatMessage: the timeouts that are still to fire                *)
(* ================================================================== *)

Module ChatLive.

(** Every pending timeout calls a closure over the paragraphs [us], and
    every string revealed is one of [us]. *)
Definition live_only (us : list jsstring) (st : ChatMessage.state) : Prop :=
  (forall t, In t (Timers.pending (ChatMessage.timers st)) ->
     exists cl,
       nth_error (ChatMessage.closures st) (Timers.owner t) = Some cl /\
       ChatMessage.captured cl = us) /\
  (forall s, In s (strings (ChatMessage.visibleParagraphs st)) -> In s us).

(** The entries the callback of a closure can still append. *)
Definition left_to_read (c : ChatMessage.closure) : nat :=
  Z.to_nat (Z.of_nat (length (ChatMessage.captured c)) -
            ChatMessage.currentIndex c).

(** A bound on the ticks that can still fire a timeout: the pending
    timeouts, and what their callbacks can still append. *)
Definition fuel (st : ChatMessage.state) : nat :=
  length (Timers.pending (ChatMessage.timers st)) +
  list_sum (map left_to_read (ChatMessage.closures st)).

(** No interval is pending. *)
Definition timeouts_only (st : ChatMessage.state) : Prop :=
  forall t, In t (Timers.pending (ChatMessage.timers st)) ->
            Timers.period t = None.

End ChatLive.

(* ================================================================== *)
(** ** Strings: equality, splitting and trimming                       *)
(* ================================================================== *)

Lemma str_eqb_eq (a b : jsstring) : str_eqb a b = true <-> a = b.
Proof.
  revert b; induction a as [|x a IH]; intros [|y b]; simpl;
    try (split; [discriminate | discriminate]); try tauto.
  rewrite andb_true_iff, N.eqb_eq, IH.
  split; [intros [-> ->]; reflexivity | intros E; injection E; auto].
Qed.

Lemma str_eqb_refl (a : jsstring) : str_eqb a a = true.
Proof. apply str_eqb_eq; reflexivity. Qed.

Lemma str_eqb_neq (a b : jsstring) : str_eqb a b = false <-> a <> b.
Proof.
  rewrite <- str_eqb_eq. destruct (str_eqb a b); split; congruence.
Qed.

Lemma Set_has_In (s : list jsstring) (x : jsstring) :
  Set_has s x = true <-> In x s.
Proof.
  unfold Set_has. rewrite existsb_exists. split.
  - intros (y & Hy & E). apply str_eqb_eq in E. subst; assumption.
  - intros Hx. exists x. split; [assumption | apply str_eqb_refl].
Qed.

(** Filtering twice. *)
Lemma filter_filter {A} (p q : A -> bool) (l : list A) :
  filter p (filter q l) = filter (fun x => q x && p x) l.
Proof.
  induction l as [|x l IH]; simpl; [reflexivity|].
  destruct (q x); simpl; [destruct (p x)|]; rewrite IH; reflexivity.
Qed.

Lemma filter_all {A} (p : A -> bool) (l : list A) :
  (forall x, In x l -> p x = true) -> filter p l = l.
Proof.
  induction l as [|x l IH]; simpl; intros Hp; [reflexivity|].
  rewrite (Hp x (or_introl eq_refl)). f_equal. apply IH. auto.
Qed.

Lemma filter_map_swap {A B} (f : A -> B) (p : B -> bool) (l : list A) :
  filter p (map f l) = map f (filter (fun x => p (f x)) l).
Proof.
  induction l as [|x l IH]; simpl; [reflexivity|].
  destruct (p (f x)); simpl; rewrite IH; reflexivity.
Qed.

(** *** keep_first *)

Lemma keep_first_In (l : list jsstring) (x : jsstring) :
  In x (keep_first l) <-> In x l.
Proof.
  induction l as [|y l IH]; simpl; [tauto|].
  rewrite filter_In, IH, negb_true_iff, str_eqb_neq.
  destruct (list_eq_dec N.eq_dec y x) as [E|E]; [tauto|].
  split; [tauto|]. intros [?|?]; [tauto|]. right; split; congruence.
Qed.

Lemma keep_first_NoDup (l : list jsstring) : NoDup (keep_first l).
Proof.
  induction l as [|y l IH]; simpl; constructor.
  - rewrite filter_In, negb_true_iff, str_eqb_neq. tauto.
  - apply NoDup_filter; assumption.
Qed.

Lemma keep_first_id (l : list jsstring) : NoDup l -> keep_first l = l.
Proof.
  induction 1 as [|x l Hx Hl IH]; simpl; [reflexivity|].
  rewrite IH. f_equal. apply filter_all.
  intros y Hy. apply negb_true_iff, str_eqb_neq. congruence.
Qed.

Lemma keep_first_filter (p : jsstring -> bool) (l : list jsstring) :
  keep_first (filter p l) = filter p (keep_first l).
Proof.
  induction l as [|x l IH]; simpl; [reflexivity|].
  destruct (p x) eqn:Px; simpl; rewrite ?Px, IH, !filter_filter.
  - f_equal. apply filter_ext. intros y. apply andb_comm.
  - apply filter_ext. intros y.
    destruct (str_eqb y x) eqn:E; simpl; [|reflexivity].
    apply str_eqb_eq in E. subst. exact Px.
Qed.

(** The [Set] of the code keeps what [keep_first] keeps. *)
Lemma fold_Set_add (l acc : list jsstring) :
  fold_left Set_add l acc =
  acc ++ keep_first (filter (fun y => negb (Set_has acc y)) l).
Proof.
  revert acc; induction l as [|x l IH]; intros acc; simpl.
  - symmetry; apply app_nil_r.
  - unfold Set_add at 2. destruct (Set_has acc x) eqn:Hx; simpl.
    + apply IH.
    + rewrite IH, <- app_assoc. simpl. do 2 f_equal.
      rewrite <- keep_first_filter, filter_filter. f_equal.
      apply filter_ext. intros y. unfold Set_has.
      rewrite existsb_app. simpl. rewrite orb_false_r, negb_orb.
      reflexivity.
Qed.

Lemma Set_spread_keep_first (l : list jsstring) :
  Set_spread l = keep_first l.
Proof.
  unfold Set_spread. rewrite fold_Set_add. simpl. f_equal.
  apply filter_all. reflexivity.
Qed.

(** *** split and join *)

Lemma split_not_nil (sep : N) (s : jsstring) : split sep s <> [].
Proof.
  destruct s as [|c r]; simpl; [discriminate|].
  destruct (N.eqb c sep); [discriminate|].
  destruct (split sep r); discriminate.
Qed.

Lemma split_no_sep (sep : N) (s p : jsstring) :
  In p (split sep s) -> ~ In sep p.
Proof.
  revert p; induction s as [|c r IH]; simpl; intros p Hp.
  - destruct Hp as [<-|[]]. intros [].
  - destruct (N.eqb_spec c sep) as [E|E].
    + destruct Hp as [<-|Hp]; [intros []|apply IH; assumption].
    + destruct (split sep r) as [|q qs] eqn:S.
      * destruct Hp as [<-|[]]. intros [?|[]]. congruence.
      * destruct Hp as [<-|Hp].
        -- intros [?|Hq]; [congruence|].
           apply (IH q); [left; reflexivity | assumption].
        -- apply IH. right; assumption.
Qed.

Lemma split_piece (sep : N) (p rest : jsstring) :
  ~ In sep p -> split sep (p ++ sep :: rest) = p :: split sep rest.
Proof.
  induction p as [|c p IH]; simpl; intros Hp.
  - rewrite N.eqb_refl. reflexivity.
  - destruct (N.eqb_spec c sep) as [E|E]; [tauto|].
    rewrite IH by tauto. reflexivity.
Qed.

Lemma split_last (sep : N) (p : jsstring) :
  ~ In sep p -> split sep p = [p].
Proof.
  induction p as [|c p IH]; simpl; intros Hp; [reflexivity|].
  destruct (N.eqb_spec c sep) as [E|E]; [tauto|].
  rewrite IH by tauto. reflexivity.
Qed.

Lemma split_join (sep : N) (a : list jsstring) :
  a <> [] -> Forall (fun p => ~ In sep p) a -> split sep (join sep a) = a.
Proof.
  induction a as [|p a IH]; intros Hne Ha; [congruence|].
  inversion Ha as [|? ? Hp Hrest]; subst.
  destruct a as [|q a].
  - simpl. apply split_last; assumption.
  - change (join sep (p :: q :: a)) with (p ++ sep :: join sep (q :: a)).
    rewrite split_piece by assumption. f_equal.
    apply IH; [discriminate | assumption].
Qed.

(** *** trim *)

Lemma trimStart_clean (s : jsstring) : starts_clean (trimStart s).
Proof.
  induction s as [|c r IH]; simpl; [exact I|].
  destruct (is_whitespace c) eqn:E; [assumption | exact E].
Qed.

Lemma clean_trimStart (s : jsstring) : starts_clean s -> trimStart s = s.
Proof. destruct s as [|c r]; simpl; [reflexivity|]. intros ->; reflexivity. Qed.

Lemma trimStart_In (s : jsstring) (c : N) : In c (trimStart s) -> In c s.
Proof.
  induction s as [|d r IH]; simpl; [tauto|].
  destruct (is_whitespace d); simpl; tauto.
Qed.

Lemma trimStart_snoc (s : jsstring) (c : N) :
  is_whitespace c = false -> trimStart (s ++ [c]) = trimStart s ++ [c].
Proof.
  intros Hc. induction s as [|d r IH]; simpl.
  - rewrite Hc. reflexivity.
  - destruct (is_whitespace d); [assumption | reflexivity].
Qed.

Lemma trimEnd_clean (s : jsstring) : starts_clean s -> starts_clean (trimEnd s).
Proof.
  destruct s as [|c r]; simpl; intros Hc; [exact I|].
  unfold trimEnd. simpl. rewrite trimStart_snoc by assumption.
  rewrite rev_app_distr. simpl. assumption.
Qed.

Lemma trim_In (s : jsstring) (c : N) : In c (trim s) -> In c s.
Proof.
  unfold trim, trimEnd. intros Hc.
  apply in_rev, trimStart_In, in_rev, trimStart_In in Hc. assumption.
Qed.

Lemma trim_idempotent (s : jsstring) : trim (trim s) = trim s.
Proof.
  assert (C : starts_clean (trim s))
    by (apply trimEnd_clean, trimStart_clean).
  unfold trim at 1. rewrite (clean_trimStart _ C).
  unfold trim, trimEnd. rewrite rev_involutive.
  rewrite (clean_trimStart (trimStart _)) by apply trimStart_clean.
  reflexivity.
Qed.

(** A string of white space trims to the empty string. *)
Lemma trimStart_blank (s : jsstring) :
  forallb is_whitespace s = true -> trimStart s = [].
Proof.
  induction s as [|c r IH]; simpl; [reflexivity|].
  rewrite andb_true_iff. intros [-> Hr]. auto.
Qed.

Lemma trim_blank (s : jsstring) :
  forallb is_whitespace s = true -> trim s = [].
Proof. intros Hs. unfold trim. rewrite trimStart_blank by assumption. reflexivity. Qed.

(* ================================================================== *)
(** ** The derived paragraphs                                          *)
(* ================================================================== *)

Lemma uniqueParagraphs_spec (content : jsstring) :
  uniqueParagraphs content = spec_units content.
Proof. apply Set_spread_keep_first. Qed.

Lemma uniqueParagraphs_NoDup (content : jsstring) :
  NoDup (uniqueParagraphs content).
Proof. rewrite uniqueParagraphs_spec. apply keep_first_NoDup. Qed.

Lemma uniqueParagraphs_In (content u : jsstring) :
  In u (uniqueParagraphs content) ->
  u <> [] /\ exists p, In p (split LF content) /\ u = trim p.
Proof.
  rewrite uniqueParagraphs_spec. unfold spec_units.
  rewrite keep_first_In, filter_In, in_map_iff.
  intros [(p & <- & Hp) Hne]. split.
  - intros E. rewrite E in Hne. discriminate.
  - exists p. auto.
Qed.

Lemma paragraphs_trimmed (content : jsstring) :
  filter nonempty (map trim (split LF content)) = map trim (paragraphs content).
Proof. apply filter_map_swap. Qed.

Lemma uniqueParagraphs_fixed (a : list jsstring) :
  NoDup a ->
  Forall (fun u => u <> [] /\ trim u = u /\ ~ In LF u) a ->
  uniqueParagraphs (join LF a) = a.
Proof.
  intros Hnd Ha. rewrite Forall_forall in Ha.
  rewrite uniqueParagraphs_spec. unfold spec_units.
  destruct a as [|u a]; [reflexivity|].
  rewrite split_join;
    [| discriminate | apply Forall_forall; intros p Hp; apply Ha; assumption ].
  rewrite (map_ext_in trim (fun p => p)) by (intros p Hp; apply Ha; assumption).
  rewrite map_id, filter_all.
  - apply keep_first_id; assumption.
  - intros p Hp. destruct (Ha p Hp) as (Hne & _). destruct p; [congruence|reflexivity].
Qed.

(** C2 (amended): [ChatMessage] derives exactly the Unit sequence of the
    specification (split on line breaks, trim, drop the empty pieces, keep
    the first occurrence of each string): its paragraphs are pairwise
    distinct and are the non-empty trimmed pieces of the content.
    [TypingMessage] derives the pieces that are not blank, untrimmed and
    with their repetitions; the Unit sequence is what trimming them and
    keeping first occurrences gives. *)
Theorem C2_unit_derivation (content : jsstring) :
  uniqueParagraphs content = spec_units content /\
  NoDup (uniqueParagraphs content) /\
  (forall u, In u (uniqueParagraphs content) <->
             u <> [] /\ exists p, In p (split LF content) /\ u = trim p) /\
  spec_units content = keep_first (map trim (paragraphs content)).
Proof.
  split; [apply uniqueParagraphs_spec|].
  split; [apply uniqueParagraphs_NoDup|].
  split.
  - intros u. split; [apply uniqueParagraphs_In|].
    intros (Hne & p & Hp & ->).
    rewrite uniqueParagraphs_spec. unfold spec_units.
    rewrite keep_first_In, filter_In, in_map_iff. split; [eauto|].
    destruct (trim p); [congruence | reflexivity].
  - unfold spec_units. rewrite paragraphs_trimmed. reflexivity.
Qed.

Lemma C2_unit_derivation_witness :
  In (lit "B") (uniqueParagraphs (text [" A"; "A "; " B "])) /\
  uniqueParagraphs (text [" A"; "A "; " B "]) =
    spec_units (text [" A"; "A "; " B "]).
Proof.
  destruct (C2_unit_derivation (text [" A"; "A "; " B "]))
    as (Hs & _ & Hin & _).
  split; [|exact Hs].
  apply Hin. split; [discriminate|]. exists (lit " B ").
  split; [|reflexivity]. cbn. auto.
Defined.

(** C2, as stated, fails on [TypingMessage]: for the content ["A\nA"] it
    keeps both lines, for [" A"] it keeps the leading blank. *)
Lemma C2_typing_message_differs :
  paragraphs (text ["A"; "A"]) = [lit "A"; lit "A"] /\
  spec_units (text ["A"; "A"]) = [lit "A"] /\
  paragraphs (lit " A") <> spec_units (lit " A").
Proof.
  split; [reflexivity|]. split; [reflexivity|].
  vm_compute. discriminate.
Qed.

(** C7: deriving the paragraphs of the re-joined paragraphs of [s] gives
    the paragraphs of [s] again. *)
Theorem C7_derivation_idempotent (s : jsstring) :
  uniqueParagraphs (join LF (uniqueParagraphs s)) = uniqueParagraphs s.
Proof.
  apply uniqueParagraphs_fixed; [apply uniqueParagraphs_NoDup|].
  apply Forall_forall. intros u Hu.
  destruct (uniqueParagraphs_In _ _ Hu) as (Hne & p & Hp & ->).
  split; [assumption|]. split; [apply trim_idempotent|].
  intros Hin. apply trim_In in Hin. revert Hin.
  apply split_no_sep with (s := s). assumption.
Qed.

(* ================================================================== *)
(** ** Array reads and revealed lists                                  *)
(* ================================================================== *)

Lemma get_inside (us : list jsstring) (k : nat) (u : jsstring) :
  nth_error us k = Some u -> get us (Z.of_nat k) = str u.
Proof.
  intros Hk. unfold get.
  destruct (Z.ltb_spec (Z.of_nat k) 0); [lia|].
  rewrite Nat2Z.id, Hk. reflexivity.
Qed.

Lemma get_beyond (us : list jsstring) (k : nat) :
  length us <= k -> get us (Z.of_nat k) = undefined.
Proof.
  intros Hk. unfold get.
  destruct (Z.ltb_spec (Z.of_nat k) 0); [reflexivity|].
  rewrite Nat2Z.id. apply nth_error_None in Hk. rewrite Hk. reflexivity.
Qed.

Lemma get_before (us : list jsstring) (i : Z) :
  (i < 0)%Z -> get us i = undefined.
Proof.
  intros Hi. unfold get. destruct (Z.ltb_spec i 0); [reflexivity|lia].
Qed.

Lemma firstn_snoc {A} (l : list A) (k : nat) (x : A) :
  nth_error l k = Some x -> firstn (S k) l = firstn k l ++ [x].
Proof.
  revert k; induction l as [|y l IH]; intros [|k]; simpl; try discriminate.
  - intros [= ->]. reflexivity.
  - intros Hk. f_equal. apply IH. assumption.
Qed.

Lemma strings_app (a b : list value) : strings (a ++ b) = strings a ++ strings b.
Proof.
  induction a as [|[|s] a IH]; simpl; [reflexivity|assumption|].
  rewrite IH. reflexivity.
Qed.

Lemma strings_str (l : list jsstring) : strings (map str l) = l.
Proof. induction l as [|s l IH]; simpl; [reflexivity|]. rewrite IH. reflexivity. Qed.

(** One more call of the callback: the cursor [k - 1] is below the length,
    the updater reads at [k - 1] or at [k]. *)
Lemma revealed_next (m : updater_time) (us : list jsstring) (k : nat) :
  k <= length us ->
  revealed m us k ++
    [get us (match m with
             | AtCall => Z.of_nat k - 1
             | AtRender => Z.of_nat k - 1 + 1
             end)] = revealed m us (S k).
Proof.
  intros Hk. destruct m; cbn [revealed].
  - destruct k as [|j].
    + rewrite get_before by lia. reflexivity.
    + replace (Z.of_nat (S j) - 1)%Z with (Z.of_nat j) by lia.
      destruct (nth_error us j) as [u|] eqn:Hj.
      * rewrite (get_inside _ _ Hj), (firstn_snoc _ _ Hj), map_app.
        reflexivity.
      * apply nth_error_None in Hj. lia.
  - replace (Z.of_nat k - 1 + 1)%Z with (Z.of_nat k) by lia.
    destruct (Nat.ltb_spec (length us) k) as [?|_]; [lia|].
    rewrite app_nil_r.
    destruct (nth_error us k) as [u|] eqn:Hu.
    + assert (k < length us) by (apply nth_error_Some; congruence).
      rewrite (get_inside _ _ Hu), (firstn_snoc _ _ Hu), map_app.
      destruct (Nat.ltb_spec (length us) (S k)) as [?|_]; [lia|].
      rewrite app_nil_r. reflexivity.
    + apply nth_error_None in Hu.
      rewrite get_beyond by assumption.
      rewrite !firstn_all2 by lia.
      destruct (Nat.ltb_spec (length us) (S k)) as [_|?]; [reflexivity|lia].
Qed.

(** Once the cursor has passed the end nothing is appended any more. *)
Lemma revealed_stable (m : updater_time) (us : list jsstring) (k : nat) :
  length us < k -> revealed m us (S k) = revealed m us k.
Proof.
  intros Hk. destruct m; cbn [revealed].
  - destruct k as [|j]; [lia|]. rewrite !firstn_all2 by lia. reflexivity.
  - rewrite !firstn_all2 by lia.
    destruct (Nat.ltb_spec (length us) k) as [_|?]; [|lia].
    destruct (Nat.ltb_spec (length us) (S k)) as [_|?]; [reflexivity|lia].
Qed.

(** The strings revealed so far are an initial segment of the captured
    paragraphs. *)
Lemma revealed_strings (m : updater_time) (us : list jsstring) (k : nat) :
  strings (revealed m us k) =
  firstn (match m with AtCall => pred k | AtRender => k end) us.
Proof.
  destruct m; simpl.
  - destruct k as [|j]; simpl; [reflexivity | apply strings_str].
  - rewrite strings_app, strings_str.
    destruct (Nat.ltb (length us) k); simpl; apply app_nil_r.
Qed.

(* ================================================================== *)
(** ** One ChatMessage session                                         *)
(* ================================================================== *)

Module ChatSession.
Import ChatMessage.

Lemma chat_ticks_S (m : updater_time) (k : nat) (st : state) :
  ticks (repeat m (S k)) st = step (ticks (repeat m k) st) (Tick m).
Proof.
  unfold ticks, run.
  replace (repeat m (S k)) with (repeat m k ++ [m])
    by (symmetry; apply (repeat_cons k m)).
  rewrite map_app, fold_left_app. reflexivity.
Qed.

(** Without a pending timer a tick does nothing. *)
Lemma chat_idle_ticks (sched : list updater_time) (st : state) :
  Timers.pending (timers st) = [] -> ticks sched st = st.
Proof.
  intros Hp. induction sched as [|m sched IH]; [reflexivity|].
  unfold ticks, run in *. cbn [map fold_left].
  unfold step at 2, Timers.fire. rewrite Hp. exact IH.
Qed.

(** The state of a session of a non-user message after [k] ticks: one
    closure, whose cursor stops at the length of the paragraphs; the
    revealed list; and one pending timeout as long as the cursor has not
    been found at the end. *)
Lemma chat_session (m : updater_time) (content : jsstring) (k : nat) :
  let us := uniqueParagraphs content in
  let st := ticks (repeat m k) (start content false) in
  closures st =
    [{| captured := us;
        currentIndex := Z.of_nat (Nat.min k (S (length us))) - 1 |}] /\
  visibleParagraphs st = revealed m us k /\
  (k <= S (length us) ->
   exists h d, Timers.pending (timers st) =
     [{| Timers.handle := h; Timers.due := d;
         Timers.period := None; Timers.owner := 0 |}]) /\
  (S (length us) < k -> Timers.pending (timers st) = []).
Proof.
  intros us. induction k as [|k IH]; intros st.
  - subst st. cbn. split; [reflexivity|]. split; [destruct m; reflexivity|].
    split; [eauto | lia].
  - subst st. rewrite chat_ticks_S.
    destruct IH as (Hc & Hv & Hp & Hq).
    remember (ticks (repeat m k) (start content false)) as st eqn:Est. clear Est.
    destruct (Nat.le_gt_cases k (S (length us))) as [Hk|Hk].
    + destruct (Hp Hk) as (h & d & Hpend).
      unfold step, Timers.fire. rewrite Hpend. cbn [Timers.earliest].
      cbn [Timers.period Timers.owner Timers.handle Timers.due filter].
      rewrite Nat.eqb_refl. cbn [negb].
      unfold showNextParagraph, with_timers. cbn [closures].
      rewrite Hc. cbn [nth_error captured currentIndex].
      rewrite Nat.min_l by assumption.
      destruct (Z.ltb_spec (Z.of_nat k - 1) (Z.of_nat (length us))) as [Hlt|Hge].
      * cbn [closures visibleParagraphs timers store].
        split.
        { rewrite Nat.min_l by lia. do 2 f_equal. lia. }
        split.
        { rewrite Hv, <- revealed_next by lia. destruct m; reflexivity. }
        split; [|lia]. intros _. cbn. eauto.
      * assert (k = S (length us)) by lia. subst k.
        cbn [closures visibleParagraphs timers Timers.pending].
        split; [rewrite Nat.min_r by lia; reflexivity|].
        split; [rewrite Hv; symmetry; apply revealed_stable; lia|].
        split; [lia | reflexivity].
    + specialize (Hq Hk).
      unfold step, Timers.fire. rewrite Hq. cbn [Timers.earliest].
      split; [rewrite Hc, !Nat.min_r by lia; reflexivity|].
      split; [rewrite Hv; symmetry; apply revealed_stable; lia|].
      split; [lia | intros _; assumption].
Qed.

Lemma chat_active_iff (m : updater_time) (content : jsstring) (k : nat) :
  active (ticks (repeat m k) (start content false)) =
  Nat.leb k (S (length (uniqueParagraphs content))).
Proof.
  destruct (chat_session m content k) as (_ & _ & Hp & Hq). unfold active, Timers.idle.
  destruct (Nat.leb_spec k (S (length (uniqueParagraphs content)))) as [Hk|Hk].
  - destruct (Hp Hk) as (h & d & ->). reflexivity.
  - rewrite (Hq Hk). reflexivity.
Qed.

End ChatSession.

(* ================================================================== *)
(** ** One TypingMessage session                                       *)
(* ================================================================== *)

Module TypingSession.
Import TypingMessage.

Lemma typing_ticks_S (m : updater_time) (k : nat) (st : state) :
  ticks (repeat m (S k)) st = step (ticks (repeat m k) st) (Tick m).
Proof.
  unfold ticks, run.
  replace (repeat m (S k)) with (repeat m k ++ [m])
    by (symmetry; apply (repeat_cons k m)).
  rewrite map_app, fold_left_app. reflexivity.
Qed.

Lemma typing_idle_ticks (sched : list updater_time) (st : state) :
  Timers.pending (timers st) = [] -> ticks sched st = st.
Proof.
  intros Hp. induction sched as [|m sched IH]; [reflexivity|].
  unfold ticks, run in *. cbn [map fold_left].
  unfold step at 2, Timers.fire. rewrite Hp. exact IH.
Qed.

(** The empty content arms no interval. *)
Lemma typing_start_empty : start [] = 
  {| displayedParagraphs := []; isTyping := true; contentRef := [];
     closures := []; timers := Timers.empty; cleanup := None;
     deps := Some [] |}.
Proof. reflexivity. Qed.

(** The state of a session after [k] ticks, for a content that is not the
    empty string: the interval stays armed, and [isTyping] stays [true],
    until a tick finds the cursor at the end. *)
Lemma typing_session (m : updater_time) (content : jsstring) (k : nat) :
  content <> [] ->
  let us := paragraphs content in
  let st := ticks (repeat m k) (start content) in
  closures st =
    [{| captured := us;
        currentParagraphIndex := Z.of_nat (Nat.min k (S (length us))) - 1;
        typingInterval := 1 |}] /\
  displayedParagraphs st = revealed m us k /\
  (k <= S (length us) ->
   isTyping st = true /\
   exists d, Timers.pending (timers st) =
     [{| Timers.handle := 1; Timers.due := d;
         Timers.period := Some 600%Z; Timers.owner := 0 |}]) /\
  (S (length us) < k ->
   isTyping st = false /\ Timers.pending (timers st) = []).
Proof.
  intros Hne us. induction k as [|k IH]; intros st.
  - subst st. unfold ticks, run, start, effect.
    destruct content as [|c r]; [congruence|].
    cbn. split; [reflexivity|]. split; [destruct m; reflexivity|].
    split; [eauto | lia].
  - subst st. rewrite typing_ticks_S.
    destruct IH as (Hc & Hv & Hp & Hq).
    remember (ticks (repeat m k) (start content)) as st eqn:Est. clear Est.
    destruct (Nat.le_gt_cases k (S (length us))) as [Hk|Hk].
    + destruct (Hp Hk) as (Hty & d & Hpend).
      unfold step, Timers.fire. rewrite Hpend. cbn [Timers.earliest].
      cbn [Timers.period Timers.owner Timers.handle Timers.due filter].
      cbn [Nat.eqb negb app].
      unfold callback, with_timers. cbn [closures].
      rewrite Hc. cbn [nth_error captured currentParagraphIndex typingInterval].
      rewrite Nat.min_l by assumption.
      destruct (Z.ltb_spec (Z.of_nat k - 1) (Z.of_nat (length us))) as [Hlt|Hge].
      * cbn [closures displayedParagraphs timers store isTyping].
        split.
        { rewrite Nat.min_l by lia. do 2 f_equal. lia. }
        split.
        { rewrite Hv, <- revealed_next by lia. destruct m; reflexivity. }
        split; [|lia]. intros _. split; [assumption|]. cbn. eauto.
      * assert (k = S (length us)) by lia. subst k.
        cbn [closures displayedParagraphs timers isTyping Timers.pending].
        split; [rewrite Nat.min_r by lia; reflexivity|].
        split; [rewrite Hv; symmetry; apply revealed_stable; lia|].
        split; [lia|]. intros _. split; reflexivity.
    + destruct (Hq Hk) as (Hty & Hpend).
      unfold step, Timers.fire. rewrite Hpend. cbn [Timers.earliest].
      split; [rewrite Hc, !Nat.min_r by lia; reflexivity|].
      split; [rewrite Hv; symmetry; apply revealed_stable; lia|].
      split; [lia | intros _; split; assumption].
Qed.

End TypingSession.

(* ================================================================== *)
(** ** Blank contents                                                  *)
(* ================================================================== *)

Lemma split_chars (sep : N) (s p : jsstring) (c : N) :
  In p (split sep s) -> In c p -> In c s.
Proof.
  revert p; induction s as [|d r IH]; simpl; intros p Hp Hc.
  - destruct Hp as [<-|[]]. assumption.
  - destruct (N.eqb d sep).
    + destruct Hp as [<-|Hp]; [destruct Hc | right; eapply IH; eassumption].
    + destruct (split sep r) as [|q qs] eqn:S.
      * destruct Hp as [<-|[]]. destruct Hc as [->|[]]. left; reflexivity.
      * destruct Hp as [<-|Hp].
        -- destruct Hc as [->|Hc]; [left; reflexivity|].
           right. apply (IH q); [left; reflexivity | assumption].
        -- right. apply (IH p); [right; assumption | assumption].
Qed.

Lemma filter_none {A} (p : A -> bool) (l : list A) :
  (forall x, In x l -> p x = false) -> filter p l = [].
Proof.
  induction l as [|x l IH]; simpl; intros Hp; [reflexivity|].
  rewrite (Hp x (or_introl eq_refl)). apply IH. auto.
Qed.

Lemma blank_paragraphs (content : jsstring) :
  forallb is_whitespace content = true -> paragraphs content = [].
Proof.
  intros Hb. unfold paragraphs. apply filter_none. intros p Hp.
  rewrite trim_blank; [reflexivity|].
  apply forallb_forall. intros c Hc.
  rewrite forallb_forall in Hb. apply Hb.
  eapply split_chars; eassumption.
Qed.

Lemma blank_uniqueParagraphs (content : jsstring) :
  forallb is_whitespace content = true -> uniqueParagraphs content = [].
Proof.
  intros Hb. unfold uniqueParagraphs.
  rewrite paragraphs_trimmed, blank_paragraphs by assumption. reflexivity.
Qed.

Lemma revealed_grows (m : updater_time) (us : list jsstring) (k : nat) :
  exists more, revealed m us (S k) = revealed m us k ++ more /\ length more <= 1.
Proof.
  destruct (Nat.le_gt_cases k (length us)) as [Hk|Hk].
  - eexists. split; [symmetry; apply revealed_next; assumption | simpl; lia].
  - exists []. rewrite app_nil_r. split; [apply revealed_stable; assumption | simpl; lia].
Qed.

(** A session of [TypingMessage] after [k] ticks, whatever the content. *)
Lemma typing_displayed (m : updater_time) (content : jsstring) (k : nat) :
  TypingMessage.displayedParagraphs
    (TypingMessage.ticks (repeat m k) (TypingMessage.start content)) =
  match content with
  | [] => []
  | _ :: _ => revealed m (paragraphs content) k
  end.
Proof.
  destruct content as [|c r].
  - rewrite TypingSession.typing_idle_ticks; reflexivity.
  - apply TypingSession.typing_session. discriminate.
Qed.

(* ================================================================== *)
(** ** A new content in the middle of a session                        *)
(* ================================================================== *)

Lemma get_In (us : list jsstring) (i : Z) (s : jsstring) :
  get us i = str s -> In s us.
Proof.
  unfold get. destruct (i <? 0)%Z; [discriminate|].
  destruct (nth_error us (Z.to_nat i)) as [u|] eqn:Hu; [|discriminate].
  intros [= <-]. eapply nth_error_In; eassumption.
Qed.

Lemma earliest_In (l : list Timers.timer) (t : Timers.timer) :
  Timers.earliest l = Some t -> In t l.
Proof.
  revert t; induction l as [|u l IH]; simpl; intros t; [discriminate|].
  destruct (Timers.earliest l) as [v|].
  - destruct (Timers.due v <? Timers.due u)%Z; intros [= <-]; auto.
  - intros [= <-]. auto.
Qed.

Lemma nth_error_store_eq {A} (l : list A) (i : nat) (x y : A) :
  nth_error l i = Some y -> nth_error (store i x l) i = Some x.
Proof.
  revert i; induction l as [|z l IH]; intros [|i]; cbn;
    try discriminate; auto.
Qed.

Lemma nth_error_store_ne {A} (l : list A) (i j : nat) (x : A) :
  i <> j -> nth_error (store i x l) j = nth_error l j.
Proof.
  revert i j; induction l as [|z l IH]; intros [|i] [|j]; cbn; auto;
    congruence.
Qed.

Module TypingRestart.
Import TypingMessage.

Lemma cleanup_detaches (st : state) :
  current st -> Timers.pending (timers (run_cleanup st)) = [].
Proof.
  intros (_ & Ht). unfold run_cleanup.
  destruct (cleanup st) as [h|] eqn:Hc; cbn.
  - apply filter_none. intros t Hin.
    destruct (Ht t Hin) as (c & cl & _ & _ & _ & _ & E).
    injection E as <-. rewrite Nat.eqb_refl. reflexivity.
  - destruct (Timers.pending (timers st)) as [|t l]; [reflexivity|].
    destruct (Ht t (or_introl eq_refl)) as (c & cl & _ & _ & _ & _ & E).
    discriminate.
Qed.

Lemma current_effect (content : jsstring) (st : state) :
  Timers.pending (timers st) = [] -> current (effect content st).
Proof.
  intros Hp. unfold effect.
  destruct (nonempty content); cbn; split; cbn.
  - intros s [].
  - rewrite Hp. cbn. intros t [<-|[]]. cbn.
    exists content. eexists. split; [reflexivity|].
    rewrite nth_error_app2, Nat.sub_diag by reflexivity. cbn. auto.
  - intros s [].
  - rewrite Hp. intros t [].
Qed.

Lemma current_step (st : state) (e : event) :
  current st -> current (step st e).
Proof.
  intros Hst. destruct e as [t content|m]; cbn [step].
  - destruct (same_deps _ content).
    + exact Hst.
    + apply current_effect.
      apply (cleanup_detaches (st := with_timers st _)). exact Hst.
  - destruct (Timers.fire (timers st)) as [[tm p]|] eqn:Hf; [|exact Hst].
    unfold Timers.fire in Hf.
    destruct (Timers.earliest (Timers.pending (timers st))) as [t|] eqn:He;
      [|discriminate].
    injection Hf as <- <-.
    destruct Hst as (Hs & Ht).
    pose proof (Ht t (earliest_In _ He)) as (c & cl & Hd & Hcl & Hcap & Hint & Hcu).
    assert (Hp : forall u,
      In u (match Timers.period t with
            | Some d =>
                filter (fun u => negb (Nat.eqb (Timers.handle u) (Timers.handle t)))
                  (Timers.pending (timers st)) ++
                [{| Timers.handle := Timers.handle t;
                    Timers.due := Z.max (Timers.clock (timers st)) (Timers.due t) + d;
                    Timers.period := Some d; Timers.owner := Timers.owner t |}]
            | None =>
                filter (fun u => negb (Nat.eqb (Timers.handle u) (Timers.handle t)))
                  (Timers.pending (timers st))
            end) ->
      exists cl', nth_error (closures st) (Timers.owner u) = Some cl' /\
        captured cl' = paragraphs c /\
        typingInterval cl' = Timers.handle u /\
        cleanup st = Some (Timers.handle u)).
    { intros u Hu.
      assert (In u (Timers.pending (timers st)) \/
              (Timers.handle u = Timers.handle t /\
               Timers.owner u = Timers.owner t)) as [Hin|[Eh Eo]].
      { destruct (Timers.period t);
          [apply in_app_or in Hu; destruct Hu as [Hu|[<-|[]]]|];
          try (apply filter_In in Hu; tauto). right. split; reflexivity. }
      - destruct (Ht u Hin) as (c' & cl' & Hd' & ? & ? & ? & ?).
        exists cl'. replace c with c' by congruence. auto.
      - exists cl. rewrite Eh, Eo. auto. }
    unfold callback, with_timers. cbn [closures].
    rewrite Hcl.
    destruct (currentParagraphIndex cl <? Z.of_nat (length (captured cl)))%Z.
    + split; cbn.
      * intros s. rewrite strings_app, in_app_iff. intros [Hin|Hin]; [auto|].
        exists c. split; [assumption|]. rewrite <- Hcap.
        destruct m; cbn in Hin;
          match type of Hin with
          | In _ (match ?g with _ => _ end) => destruct g eqn:Hg; cbn in Hin
          end; try tauto;
          destruct Hin as [<-|[]]; eapply get_In; eassumption.
      * intros u Hu. destruct (Hp u Hu) as (cl' & Hn & ? & ? & ?).
        exists c.
        destruct (Nat.eq_dec (Timers.owner t) (Timers.owner u)) as [E|E].
        -- eexists. split; [assumption|]. split.
           { rewrite <- E. eapply nth_error_store_eq. eassumption. }
           cbn. rewrite <- E in Hn. replace cl with cl' by congruence. auto.
        -- exists cl'. split; [assumption|]. split; [|auto].
           rewrite nth_error_store_ne by assumption. assumption.
    + split; cbn.
      * exact Hs.
      * intros u Hu. apply filter_In in Hu. destruct Hu as [Hu _].
        destruct (Hp u Hu) as (cl' & ? & ? & ? & ?).
        exists c, cl'. auto.
Qed.

(** Whatever the contents and whenever they arrive, [TypingMessage] only
    ever displays paragraphs of its current content: the interval of the
    previous content is cleared before the new one is armed. *)
Lemma typing_message_never_stale (content0 : jsstring) (es : list event) :
  current (run (initial content0) es).
Proof.
  unfold run.
  assert (H0 : current (initial content0)) by (split; intros ? []).
  revert H0. generalize (initial content0).
  induction es as [|e es IH]; intros st Hst; [exact Hst|].
  cbn. apply IH. apply current_step. exact Hst.
Qed.

End TypingRestart.


(* ================================================================== *)
(** ** Sessions under any schedule of updater calls                    *)
(* ================================================================== *)

Lemma In_store {A} (l : list A) (i : nat) (x y : A) :
  In y (store i x l) -> y = x \/ In y l.
Proof.
  revert i; induction l as [|z l IH]; intros [|i]; cbn; try tauto.
  - intros [<-|?]; auto.
  - intros [<-|Hy]; auto. destruct (IH _ Hy); auto.
Qed.

Lemma no_strings (vs : list value) (us : list jsstring) :
  (forall s, In s (strings vs) -> In s us) -> us = [] -> strings vs = [].
Proof.
  intros Hin ->. destruct (strings vs) as [|s l]; [reflexivity|].
  destruct (Hin s (or_introl eq_refl)).
Qed.

Module ChatAnySchedule.
Import ChatMessage.

(** A tick appends at most one entry to the visible paragraphs, and takes
    none away. *)
Lemma tick_appends (st : state) (m : updater_time) :
  exists more,
    visibleParagraphs (step st (Tick m)) = visibleParagraphs st ++ more /\
    length more <= 1.
Proof.
  assert (Same : forall st' : state,
            visibleParagraphs st' = visibleParagraphs st ->
            exists more,
              visibleParagraphs st' = visibleParagraphs st ++ more /\
              length more <= 1).
  { intros st' ->. exists []. rewrite app_nil_r. split; [reflexivity | cbn; lia]. }
  cbn [step]. destruct (Timers.fire (timers st)) as [[tm p]|]; [|auto].
  unfold showNextParagraph. cbn [closures with_timers].
  destruct (nth_error (closures st) (Timers.owner tm)) as [c|]; [|auto].
  destruct (currentIndex c <? Z.of_nat (length (captured c)))%Z; [|auto].
  cbn [visibleParagraphs]. eexists. split; [reflexivity | cbn; lia].
Qed.

Lemma reveals_only_tick (us : list jsstring) (st : state) (m : updater_time) :
  reveals_only us st -> reveals_only us (step st (Tick m)).
Proof.
  intros (Hc & Hs). cbn [step].
  destruct (Timers.fire (timers st)) as [[tm p]|]; [|split; assumption].
  unfold showNextParagraph. cbn [closures with_timers].
  destruct (nth_error (closures st) (Timers.owner tm)) as [c|] eqn:Hn;
    [|split; assumption].
  pose proof (Hc c (nth_error_In _ _ Hn)) as Hcap.
  destruct (currentIndex c <? Z.of_nat (length (captured c)))%Z;
    [|split; assumption].
  split; cbn [closures visibleParagraphs].
  - intros cl Hcl. apply In_store in Hcl. destruct Hcl as [->|Hcl]; auto.
  - intros s. rewrite strings_app, in_app_iff. intros [Hin|Hin]; [auto|].
    rewrite <- Hcap.
    destruct m; cbn in Hin;
      match type of Hin with
      | In _ (match ?g with _ => _ end) => destruct g eqn:Hg; cbn in Hin
      end; try tauto;
      destruct Hin as [<-|[]]; eapply get_In; eassumption.
Qed.

(** Whatever the schedule, a session only reveals paragraphs of its
    content. *)
Lemma session_reveals_only (sched : list updater_time) (content : jsstring) :
  reveals_only (uniqueParagraphs content) (ticks sched (start content false)).
Proof.
  unfold ticks, run.
  assert (H0 : reveals_only (uniqueParagraphs content) (start content false)).
  { split; cbn; [intros cl [<-|[]]; reflexivity | intros s []]. }
  revert H0. generalize (start content false).
  induction sched as [|m sched IH]; intros st Hst; [exact Hst|].
  cbn [map fold_left]. apply IH. apply reveals_only_tick. exact Hst.
Qed.

End ChatAnySchedule.

Module TypingAnySchedule.
Import TypingMessage.

Lemma tick_keeps_deps (st : state) (m : updater_time) :
  deps (step st (Tick m)) = deps st.
Proof.
  cbn [step]. destruct (Timers.fire (timers st)) as [[tm p]|]; [|reflexivity].
  unfold callback. cbn [closures with_timers].
  destruct (nth_error (closures st) (Timers.owner tm)) as [c|]; [|reflexivity].
  destruct (currentParagraphIndex c <? Z.of_nat (length (captured c)))%Z;
    reflexivity.
Qed.

(** Whatever the schedule, a session only displays paragraphs of its
    content. *)
Lemma session_displays_only (sched : list updater_time) (content s : jsstring) :
  In s (strings (displayedParagraphs (ticks sched (start content)))) ->
  In s (paragraphs content).
Proof.
  unfold ticks, run.
  assert (H0 : current (start content) /\ deps (start content) = Some content).
  { split.
    - apply TypingRestart.current_effect. reflexivity.
    - unfold start, effect. destruct (nonempty content); reflexivity. }
  revert H0. generalize (start content).
  induction sched as [|m sched IH]; intros st (Hst & Hd).
  - cbn. intros Hin. destruct Hst as (Hs & _).
    destruct (Hs s Hin) as (c & Hc & Hp). congruence.
  - cbn [map fold_left]. apply IH. split.
    + apply TypingRestart.current_step. exact Hst.
    + rewrite tick_keeps_deps. exact Hd.
Qed.

End TypingAnySchedule.

(* ================================================================== *)
(** ** The claims about sessions                                       *)
(* ================================================================== *)

(** The callbacks run once more than there are paragraphs: read at render,
    tick [n + 1] appends the entry past the end of the [n] paragraphs;
    read at the call, tick 1 appends the entry at index -1.  The session
    ends with tick [n + 2]. *)
Lemma reveal_overrun (content : jsstring) :
  let us := uniqueParagraphs content in
  let s m k := ChatMessage.ticks (repeat m k) (ChatMessage.start content false) in
  ChatMessage.visibleParagraphs (s AtRender (length us)) = map str us /\
  ChatMessage.visibleParagraphs (s AtRender (S (length us))) =
    map str us ++ [undefined] /\
  ChatMessage.visibleParagraphs (s AtCall 1) = [undefined] /\
  ChatMessage.visibleParagraphs (s AtCall (S (length us))) =
    undefined :: map str us /\
  forall m k, ChatMessage.active (s m k) = Nat.leb k (S (length us)).
Proof.
  intros us s. subst s. cbn beta.
  repeat split; try (intros; apply ChatSession.chat_active_iff);
    match goal with
    | |- ChatMessage.visibleParagraphs (ChatMessage.ticks (repeat ?m ?k) _) = _ =>
        destruct (ChatSession.chat_session m content k) as (_ & -> & _)
    end; fold us; cbn [revealed].
  - rewrite firstn_all, Nat.ltb_irrefl. apply app_nil_r.
  - rewrite firstn_all2 by lia.
    destruct (Nat.ltb_spec (length us) (S (length us))); [reflexivity|lia].
  - reflexivity.
  - rewrite firstn_all. reflexivity.
Qed.

(** As long as React calls the updaters of a session all in the same way,
    the paragraphs revealed so far are an initial segment of the derived
    paragraphs. *)
Lemma uniform_schedule_prefix (m : updater_time) (content : jsstring) (k : nat) :
  let j := match m with AtCall => pred k | AtRender => k end in
  strings (ChatMessage.visibleParagraphs
             (ChatMessage.ticks (repeat m k) (ChatMessage.start content false))) =
    firstn j (uniqueParagraphs content) /\
  strings (TypingMessage.displayedParagraphs
             (TypingMessage.ticks (repeat m k) (TypingMessage.start content))) =
    match content with [] => [] | _ => firstn j (paragraphs content) end.
Proof.
  intros j. split.
  - destruct (ChatSession.chat_session m content k) as (_ & -> & _).
    apply revealed_strings.
  - rewrite typing_displayed. destruct content as [|c r]; [reflexivity|].
    apply revealed_strings.
Qed.

(** C1 (the code at the content ["A"], one paragraph): read at render the
    first tick reveals ["A"] and the second tick, after all units are
    revealed, appends [undefined]; read at the call the first tick reveals
    [undefined].  [ChatMessage] still has a timer armed after tick 2, and
    [TypingMessage] shows its indicator until tick 3. *)
Theorem C1_one_paragraph_overrun :
  uniqueParagraphs (lit "A") = [lit "A"] /\
  paragraphs (lit "A") = [lit "A"] /\
  (let s k := ChatMessage.ticks (repeat AtRender k)
                (ChatMessage.start (lit "A") false) in
   ChatMessage.visibleParagraphs (s 1) = [str (lit "A")] /\
   ChatMessage.visibleParagraphs (s 2) = [str (lit "A"); undefined] /\
   ChatMessage.active (s 1) = true /\
   ChatMessage.active (s 2) = true /\
   ChatMessage.active (s 3) = false) /\
  (let s k := ChatMessage.ticks (repeat AtCall k)
                (ChatMessage.start (lit "A") false) in
   ChatMessage.visibleParagraphs (s 1) = [undefined] /\
   ChatMessage.visibleParagraphs (s 2) = [undefined; str (lit "A")]) /\
  (let s k := TypingMessage.ticks (repeat AtRender k)
                (TypingMessage.start (lit "A")) in
   TypingMessage.displayedParagraphs (s 1) = [str (lit "A")] /\
   TypingMessage.displayedParagraphs (s 2) = [str (lit "A"); undefined] /\
   TypingMessage.isTyping (s 1) = true /\
   TypingMessage.isTyping (s 2) = true /\
   TypingMessage.isTyping (s 3) = false) /\
  (let s k := TypingMessage.ticks (repeat AtCall k)
                (TypingMessage.start (lit "A")) in
   TypingMessage.displayedParagraphs (s 1) = [undefined]).
Proof. vm_compute. repeat split. Qed.

(** C3 (the code on a content that changes after the first tick): the
    clean-up of [ChatMessage] clears the handle of the first timeout, which
    has fired; the timeout armed by [showNextParagraph] stays pending next
    to the one of the new content, and when it fires it appends a
    paragraph of the old content to the list of the new one.  A content
    that changes before the first tick does not leak. *)
Theorem C3_stale_timeout_fires :
  let old := text ["X"; "W"] in
  let new := text ["Y"; "Z"] in
  let changed m :=
    [ChatMessage.Props 0 old false; ChatMessage.Tick m;
     ChatMessage.Props 200 new false] in
  let st m :=
    ChatMessage.run ChatMessage.initial
      (changed m ++ [ChatMessage.Tick m; ChatMessage.Tick m]) in
  uniqueParagraphs new = [lit "Y"; lit "Z"] /\
  map Timers.owner
    (Timers.pending
       (ChatMessage.timers
          (ChatMessage.run ChatMessage.initial (changed AtRender)))) = [0; 1] /\
  ChatMessage.visibleParagraphs (st AtRender) = [str (lit "Y"); str (lit "W")] /\
  ChatMessage.visibleParagraphs (st AtCall) = [undefined; str (lit "X")] /\
  map Timers.owner
    (Timers.pending
       (ChatMessage.timers
          (ChatMessage.run ChatMessage.initial
             [ChatMessage.Props 0 old false;
              ChatMessage.Props 50 new false]))) = [1].
Proof. vm_compute. repeat split. Qed.

(** C4 (the code at ["A\nB\nC"]): read at render, the fourth tick leaves
    the revealed list A, B, C, [undefined], which is no initial segment of
    the paragraphs; and when the second updater is called at once and the
    others at render, both components reveal A twice and never B. *)
Theorem C4_cursor_read_in_updater :
  let content := text ["A"; "B"; "C"] in
  let A := str (lit "A") in
  let B := str (lit "B") in
  let C := str (lit "C") in
  uniqueParagraphs content = [lit "A"; lit "B"; lit "C"] /\
  paragraphs content = [lit "A"; lit "B"; lit "C"] /\
  ChatMessage.visibleParagraphs
    (ChatMessage.ticks (repeat AtRender 4) (ChatMessage.start content false)) =
    [A; B; C; undefined] /\
  ChatMessage.visibleParagraphs
    (ChatMessage.ticks [AtRender; AtCall; AtRender]
       (ChatMessage.start content false)) = [A; A; C] /\
  TypingMessage.displayedParagraphs
    (TypingMessage.ticks [AtRender; AtCall; AtRender]
       (TypingMessage.start content)) = [A; A; C].
Proof. vm_compute. repeat split. Qed.

(** C5 (amended): for a content of line breaks and white space only, no
    paragraph is derived, the session starts with nothing revealed and no
    tick ever reveals a paragraph, however React calls the updaters; the
    session is active at the outset ([ChatMessage] has armed its first
    timer, [TypingMessage] has set [isTyping]). *)
Theorem C5_blank_content (content : jsstring) :
  forallb is_whitespace content = true ->
  uniqueParagraphs content = [] /\
  paragraphs content = [] /\
  ChatMessage.visibleParagraphs (ChatMessage.start content false) = [] /\
  ChatMessage.active (ChatMessage.start content false) = true /\
  TypingMessage.displayedParagraphs (TypingMessage.start content) = [] /\
  TypingMessage.isTyping (TypingMessage.start content) = true /\
  forall sched,
    strings (ChatMessage.visibleParagraphs
               (ChatMessage.ticks sched (ChatMessage.start content false))) = [] /\
    strings (TypingMessage.displayedParagraphs
               (TypingMessage.ticks sched (TypingMessage.start content))) = [].
Proof.
  intros Hb.
  pose proof (blank_uniqueParagraphs content Hb) as Hu.
  pose proof (blank_paragraphs content Hb) as Hp.
  repeat split; try assumption.
  - unfold TypingMessage.start, TypingMessage.effect.
    destruct (nonempty content); reflexivity.
  - unfold TypingMessage.start, TypingMessage.effect.
    destruct (nonempty content); reflexivity.
  - destruct (ChatAnySchedule.session_reveals_only sched content) as (_ & Hs).
    eapply no_strings; [exact Hs | exact Hu].
  - eapply no_strings; [|exact Hp].
    intros s. apply TypingAnySchedule.session_displays_only.
Qed.

Lemma C5_blank_content_witness :
  forallb is_whitespace (text [" "; " "]) = true /\
  uniqueParagraphs (text [" "; " "]) = [] /\
  strings (ChatMessage.visibleParagraphs
             (ChatMessage.ticks [AtRender; AtCall]
                (ChatMessage.start (text [" "; " "]) false))) = [].
Proof.
  split; [reflexivity|].
  destruct (C5_blank_content (text [" "; " "]) eq_refl)
    as (Hu & _ & _ & _ & _ & _ & Ht).
  split; [exact Hu | exact (proj1 (Ht [AtRender; AtCall]))].
Defined.

(** C5, as stated, fails: the session of a blank content is active from
    the outset, in both components. *)
Lemma C5_blank_session_starts_active :
  ChatMessage.active (ChatMessage.start [] false) = true /\
  ChatMessage.active (ChatMessage.start (text [" "; " "]) false) = true /\
  TypingMessage.isTyping (TypingMessage.start []) = true /\
  TypingMessage.isTyping (TypingMessage.start (text [" "; " "])) = true.
Proof. repeat split. Qed.

(** C6 (the code at ["A\nA\nB\n\nC"], read at render): the paragraphs are
    A, B, C and ticks 1 to 3 reveal them in turn; after tick 3 a timer is
    still armed, and tick 4 appends [undefined]. *)
Theorem C6_example_fourth_tick :
  let content := text ["A"; "A"; "B"; String.EmptyString; "C"] in
  let s k := ChatMessage.ticks (repeat AtRender k)
               (ChatMessage.start content false) in
  uniqueParagraphs content = [lit "A"; lit "B"; lit "C"] /\
  ChatMessage.visibleParagraphs (s 1) = [str (lit "A")] /\
  ChatMessage.active (s 1) = true /\
  ChatMessage.visibleParagraphs (s 2) = [str (lit "A"); str (lit "B")] /\
  ChatMessage.visibleParagraphs (s 3) =
    [str (lit "A"); str (lit "B"); str (lit "C")] /\
  ChatMessage.active (s 3) = true /\
  ChatMessage.visibleParagraphs (s 4) =
    [str (lit "A"); str (lit "B"); str (lit "C"); undefined] /\
  ChatMessage.active (s 4) = true /\
  s 5 <> s 4 /\
  ChatMessage.active (s 5) = false /\
  ChatMessage.visibleParagraphs
    (ChatMessage.ticks [AtCall] (ChatMessage.start content false)) =
    [undefined].
Proof.
  vm_compute. repeat split. discriminate.
Qed.

(** C10 (amended): for a user message the effect stores all derived
    paragraphs at once and arms no timer, from any state; a user message
    mounted has no timer pending and no tick changes it.  What the
    component shows for a user message is [message.content] itself,
    whatever the state holds.  A message that is not from the user shows
    its visible paragraphs: it starts with nothing revealed and a timer
    armed, and every tick appends at most one entry. *)
Theorem C10_user_message_bypass (content : jsstring) :
  (forall st,
     ChatMessage.visibleParagraphs (ChatMessage.effect content true st) =
       map str (uniqueParagraphs content) /\
     ChatMessage.timers (ChatMessage.effect content true st) =
       ChatMessage.timers st /\
     ChatMessage.cleanup (ChatMessage.effect content true st) = None) /\
  ChatMessage.active (ChatMessage.start content true) = false /\
  (forall sched,
     ChatMessage.ticks sched (ChatMessage.start content true) =
     ChatMessage.start content true) /\
  (forall st, ChatMessage.render content true st = inl content) /\
  (forall st,
     ChatMessage.render content false st =
     inr (ChatMessage.visibleParagraphs st)) /\
  ChatMessage.visibleParagraphs (ChatMessage.start content false) = [] /\
  ChatMessage.active (ChatMessage.start content false) = true /\
  (forall st m,
     exists more,
       ChatMessage.visibleParagraphs (ChatMessage.step st (ChatMessage.Tick m)) =
         ChatMessage.visibleParagraphs st ++ more /\
       length more <= 1) /\
  (forall m k,
     strings (ChatMessage.visibleParagraphs
                (ChatMessage.ticks (repeat m k)
                   (ChatMessage.start content false))) =
     firstn (match m with AtCall => pred k | AtRender => k end)
       (uniqueParagraphs content)).
Proof.
  repeat split.
  - intros sched. apply ChatSession.chat_idle_ticks. reflexivity.
  - apply ChatAnySchedule.tick_appends.
  - intros m k. apply (uniform_schedule_prefix m content k).
Qed.

(** C10, as stated, fails: for the user message ["A\nA"] the derived
    paragraphs are the single "A", but the component shows the content as
    it was typed, both lines of it, and not the stored paragraphs. *)
Lemma C10_user_message_shown_as_typed :
  let content := text ["A"; "A"] in
  let st := ChatMessage.start content true in
  uniqueParagraphs content = [lit "A"] /\
  ChatMessage.visibleParagraphs st = [str (lit "A")] /\
  ChatMessage.render content true st = inl content /\
  ChatMessage.render content true st <>
    inr (ChatMessage.visibleParagraphs st) /\
  content <> join LF (uniqueParagraphs content).
Proof.
  cbv zeta. split; [reflexivity|]. split; [reflexivity|].
  split; [reflexivity|]. split; [discriminate|].
  vm_compute. discriminate.
Qed.

(* ================================================================== *)
(** ** The chat request                                                *)
(* ================================================================== *)

Module Replace.
Import EventSearch.

Lemma count_prefix_split (c : N) (s : jsstring) :
  exists t, s = repeat c (count_prefix c s) ++ t /\
            match t with x :: _ => x <> c | [] => True end.
Proof.
  induction s as [|x r (t & Hr & Ht)]; simpl.
  - exists []. auto.
  - destruct (N.eqb_spec x c) as [->|E].
    + exists t. simpl. rewrite <- Hr. auto.
    + exists (x :: r). auto.
Qed.

(** The units of a match are passed over. *)
Lemma replace_all_skip (re : jsstring -> option nat) (repl a t : jsstring) :
  replace_all re repl (length a) (a ++ t) = replace_all re repl 0 t.
Proof. induction a as [|x a IH]; simpl; [destruct t|]; auto. Qed.

Lemma strip_other (c : N) (r : jsstring) :
  c <> H -> strip (c :: r) = c :: strip r.
Proof.
  intros Hc. unfold strip. cbn.
  destruct (N.eqb_spec c H); [contradiction | reflexivity].
Qed.

Lemma strip_other_run (c : N) (n : nat) (t : jsstring) :
  c <> H -> strip (repeat c n ++ t) = repeat c n ++ strip t.
Proof.
  intros Hc. induction n as [|n IH]; simpl; [reflexivity|].
  rewrite strip_other, IH by assumption. reflexivity.
Qed.

Lemma strip_H_run (n : nat) (t : jsstring) :
  match t with x :: _ => x <> H | [] => True end ->
  strip (repeat H (S n) ++ t) =
  match n with O => H :: strip t | S _ => strip t end.
Proof.
  intros Ht. unfold strip. cbn [repeat app replace_all match_HH].
  rewrite N.eqb_refl.
  assert (Hn : count_prefix H (repeat H n ++ t) = n).
  { induction n as [|n IH]; simpl.
    - destruct t as [|x t']; [reflexivity|].
      simpl. destruct (N.eqb_spec x H); [contradiction | reflexivity].
    - rewrite ?N.eqb_refl, IH. reflexivity. }
  rewrite Hn. destruct n as [|n]; [reflexivity|].
  rewrite <- (repeat_length H (S n)) at 1.
  apply replace_all_skip.
Qed.

Lemma runs_head (x : N) (t : jsstring) :
  exists k rest, runs (x :: t) = (x, S k) :: rest.
Proof.
  simpl. destruct (runs t) as [|(d, n) rest]; [eauto|].
  destruct (N.eqb_spec x d) as [->|_]; eauto.
Qed.

Lemma runs_run (c : N) (n : nat) (t : jsstring) :
  match t with x :: _ => x <> c | [] => True end ->
  runs (repeat c (S n) ++ t) = (c, S n) :: runs t.
Proof.
  intros Ht. induction n as [|n IH].
  - cbn [repeat app runs]. destruct t as [|x t']; [reflexivity|].
    destruct (runs_head x t') as (k & rest & ->).
    destruct (N.eqb_spec c x) as [<-|_]; [contradiction | reflexivity].
  - change (repeat c (S (S n)) ++ t) with (c :: (repeat c (S n) ++ t)).
    cbn [runs]. rewrite IH, N.eqb_refl. reflexivity.
Qed.

Lemma without_H_runs_run (c : N) (n : nat) (t : jsstring) :
  match t with x :: _ => x <> c | [] => True end ->
  without_H_runs (repeat c (S n) ++ t) =
  (if long_H_run (c, S n) then [] else repeat c (S n)) ++ without_H_runs t.
Proof.
  intros Ht. unfold without_H_runs. rewrite runs_run by assumption.
  cbn [filter]. destruct (long_H_run (c, S n)); reflexivity.
Qed.

(** The regular expression deletes exactly the runs of two or more 'H'. *)
Lemma strip_without_H_runs (s : jsstring) : strip s = without_H_runs s.
Proof.
  remember (length s) as len eqn:E.
  revert s E. induction len as [len IH] using lt_wf_ind. intros s E.
  destruct s as [|c r]; [reflexivity|].
  destruct (count_prefix_split c r) as (t & Hr & Ht).
  set (n := count_prefix c r) in *.
  assert (Hs : c :: r = repeat c (S n) ++ t) by (simpl; congruence).
  assert (Hlen : length t < len).
  { subst len. rewrite Hs, length_app, repeat_length. lia. }
  rewrite Hs, without_H_runs_run by assumption.
  rewrite <- (IH _ Hlen t eq_refl).
  unfold long_H_run. cbn [fst snd].
  destruct (N.eqb_spec c H) as [->|Hc].
  - rewrite strip_H_run by assumption. destruct n; reflexivity.
  - apply strip_other_run. assumption.
Qed.

Lemma strip_no_HH (s : jsstring) : has_HH s = false -> strip s = s.
Proof.
  induction s as [|c r IH]; [reflexivity|].
  cbn [has_HH]. destruct r as [|b r'].
  - intros _. unfold strip. cbn. destruct (N.eqb c H); reflexivity.
  - rewrite orb_false_iff. intros [Hcb Hr].
    assert (E : strip (c :: b :: r') = c :: strip (b :: r')).
    { unfold strip. cbn [replace_all match_HH count_prefix].
      destruct (N.eqb_spec c H) as [->|_]; [|reflexivity].
      rewrite ?N.eqb_refl in Hcb. cbn [andb] in Hcb. rewrite Hcb. reflexivity. }
    rewrite E, IH by assumption. reflexivity.
Qed.

(** [has_HH] finds two adjacent 'H' wherever they are. *)
Lemma has_HH_spec (s : jsstring) :
  has_HH s = true <-> exists a b, s = a ++ H :: H :: b.
Proof.
  induction s as [|c r IH]; cbn [has_HH].
  - split; [discriminate|]. intros ([|? ?] & b & E); discriminate.
  - destruct r as [|d r'].
    + split; [discriminate|]. intros ([|? [|? ?]] & b & E); discriminate.
    + rewrite orb_true_iff, andb_true_iff, !N.eqb_eq, IH. split.
      * intros [[-> ->]|(a & b & ->)].
        -- exists [], r'. reflexivity.
        -- exists (c :: a), b. reflexivity.
      * intros ([|x a] & b & E).
        -- injection E as -> -> _. auto.
        -- injection E as _ E. right. exists a, b. assumption.
Qed.

End Replace.



(** C9: a reply whose message is not empty is stored as a system message
    whose content is the message without its runs of two or more 'H'; a
    message without two adjacent 'H' is stored as it is. *)
Theorem C9_H_runs_deleted (now : N) (st : EventSearch.state) (m : jsstring) :
  nonempty m = true ->
  EventSearch.messages
    (EventSearch.getChatResponse now (EventSearch.Parsed (Some m)) st) =
    EventSearch.messages st ++
    [{| EventSearch.id := now; EventSearch.type := EventSearch.system;
        EventSearch.content := EventSearch.without_H_runs m |}] /\
  (EventSearch.has_HH m = false -> EventSearch.without_H_runs m = m).
Proof.
  intros Hm. split.
  - destruct m as [|c r]; [discriminate|].
    cbn [EventSearch.getChatResponse EventSearch.messages].
    rewrite Replace.strip_without_H_runs. reflexivity.
  - intros Hh. rewrite <- Replace.strip_without_H_runs.
    apply Replace.strip_no_HH. assumption.
Qed.

Lemma C9_H_runs_deleted_witness :
  nonempty (lit "aHHHbH") = true /\
  EventSearch.messages
    (EventSearch.getChatResponse 7 (EventSearch.Parsed (Some (lit "aHHHbH")))
       {| EventSearch.messages := []; EventSearch.isLoadingChat := true |}) =
    [{| EventSearch.id := 7%N; EventSearch.type := EventSearch.system;
        EventSearch.content := lit "abH" |}] /\
  EventSearch.has_HH (lit "HaH") = false /\
  EventSearch.without_H_runs (lit "HaH") = lit "HaH".
Proof.
  split; [reflexivity|]. split.
  - exact (proj1 (C9_H_runs_deleted 7
             {| EventSearch.messages := []; EventSearch.isLoadingChat := true |}
             (lit "aHHHbH") eq_refl)).
  - split; [reflexivity|].
    exact (proj2 (C9_H_runs_deleted 7
             {| EventSearch.messages := []; EventSearch.isLoadingChat := true |}
             (lit "HaH") eq_refl) eq_refl).
Defined.

(* ================================================================== *)
(** ** ChatInterface: layout and transcript                            *)
(* ================================================================== *)

Lemma join_split (sep : N) (s : jsstring) : join sep (split sep s) = s.
Proof.
  induction s as [|c r IH]; [reflexivity|].
  cbn [split]. pose proof (split_not_nil sep r) as Hne.
  destruct (split sep r) as [|p ps]; [congruence|].
  destruct (N.eqb_spec c sep) as [->|_].
  - change (join sep ([] :: p :: ps)) with ([] ++ sep :: join sep (p :: ps)).
    rewrite IH. reflexivity.
  - destruct ps as [|q ps]; cbn [join] in *; rewrite <- IH; reflexivity.
Qed.

Lemma split_length (sep : N) (s : jsstring) :
  length (split sep s) = S (count_occ N.eq_dec s sep).
Proof.
  induction s as [|c r IH]; [reflexivity|].
  cbn [split count_occ]. pose proof (split_not_nil sep r) as Hne.
  destruct (N.eqb_spec c sep) as [E|E]; destruct (N.eq_dec c sep); try congruence.
  - cbn [length]. rewrite IH. reflexivity.
  - destruct (split sep r) as [|p ps]; [congruence|]. exact IH.
Qed.

Module Transcript.
Import ChatInterface ChatTranscript.

Lemma reading_mapi (n : nat) (l : list jsstring) (i : nat) :
  i + length l = n ->
  reading
    (mapi_from
       (fun (j : nat) (line : jsstring) =>
          (line, negb (Z.eqb (Z.of_nat j) (Z.of_nat n - 1)))) i l) =
  join LF l.
Proof.
  revert i; induction l as [|x l IH]; intros i Hn; [reflexivity|].
  cbn [mapi_from reading flat_map fst snd].
  fold (reading
          (mapi_from
             (fun (j : nat) (line : jsstring) =>
                (line, negb (Z.eqb (Z.of_nat j) (Z.of_nat n - 1)))) (S i) l)).
  rewrite IH by (cbn [length] in Hn; lia).
  destruct l as [|y l].
  - cbn [length] in Hn.
    destruct (Z.eqb_spec (Z.of_nat i) (Z.of_nat n - 1)); [|lia].
    cbn. rewrite !app_nil_r. reflexivity.
  - cbn [length] in Hn.
    destruct (Z.eqb_spec (Z.of_nat i) (Z.of_nat n - 1)); [lia|].
    cbn [negb join]. rewrite <- app_assoc. reflexivity.
Qed.

Lemma mapi_fst {A B : Type} (f : nat -> A -> B * bool) (g : A -> B)
  (i : nat) (l : list A) :
  (forall j x, fst (f j x) = g x) ->
  map fst (mapi_from f i l) = map g l.
Proof.
  intros Hf. revert i; induction l as [|x l IH]; intros i; [reflexivity|].
  cbn. rewrite Hf, IH. reflexivity.
Qed.

Lemma breaks_mapi (n : nat) (l : list jsstring) (i : nat) :
  i + length l = n ->
  map snd
    (mapi_from
       (fun (j : nat) (line : jsstring) =>
          (line, negb (Z.eqb (Z.of_nat j) (Z.of_nat n - 1)))) i l) =
  match l with
  | [] => []
  | _ :: r => repeat true (length r) ++ [false]
  end.
Proof.
  revert i; induction l as [|x l IH]; intros i Hn; [reflexivity|].
  cbn [mapi_from map snd]. rewrite IH by (cbn [length] in Hn; lia).
  destruct l as [|y l]; cbn [length] in Hn.
  - destruct (Z.eqb_spec (Z.of_nat i) (Z.of_nat n - 1)); [reflexivity|lia].
  - destruct (Z.eqb_spec (Z.of_nat i) (Z.of_nat n - 1)); [lia|reflexivity].
Qed.

End Transcript.

(** X1: [ChatInterface] lays a message out in one span for each line of
    its text, with a line break element after every span but the last:
    read back with the breaks as ['\n'], the spans give the text again,
    and there are as many breaks as the text has ['\n']. *)
Theorem X1_layout_keeps_the_text (m : ChatInterface.message) :
  ChatTranscript.reading (ChatTranscript.spans m) = ChatInterface.text m /\
  map fst (ChatTranscript.spans m) = ChatInterface.lines m /\
  map snd (ChatTranscript.spans m) =
    repeat true (count_occ N.eq_dec (ChatInterface.text m) LF) ++ [false].
Proof.
  unfold ChatTranscript.spans, ChatInterface.lines.
  split; [|split].
  - rewrite Transcript.reading_mapi by reflexivity. apply join_split.
  - rewrite (Transcript.mapi_fst _ (fun x => x)) by reflexivity. apply map_id.
  - rewrite Transcript.breaks_mapi by reflexivity.
    pose proof (split_length LF (ChatInterface.text m)) as Hl.
    destruct (split LF (ChatInterface.text m)) as [|p ps]; [discriminate|].
    cbn [length] in Hl. injection Hl as ->. reflexivity.
Qed.

Module Submissions.
Import ChatInterface ChatTranscript.

Lemma handleSubmit_appends (input : jsstring) (r : reply) (ms : list message) :
  handleSubmit input r ms = ms ++ handleSubmit input r [].
Proof.
  unfold handleSubmit. destruct (nonempty (trim input)); cbn [negb].
  - destruct r as [|[|] response]; cbn [app]; rewrite <- app_assoc; reflexivity.
  - symmetry. apply app_nil_r.
Qed.

Lemma submit_all_appends (subs : list (jsstring * reply)) (ms : list message) :
  submit_all subs ms = ms ++ submit_all subs [].
Proof.
  revert ms; induction subs as [|s subs IH]; intros ms; cbn.
  - symmetry. apply app_nil_r.
  - unfold submit_all in *. rewrite IH, (IH (handleSubmit _ _ [])).
    rewrite handleSubmit_appends, app_assoc. reflexivity.
Qed.

Lemma submit_all_cons (s : jsstring * reply) (subs : list (jsstring * reply)) :
  submit_all (s :: subs) [] =
  handleSubmit (fst s) (snd s) [] ++ submit_all subs [].
Proof.
  cbn. fold (submit_all subs (handleSubmit (fst s) (snd s) [])).
  apply submit_all_appends.
Qed.

End Submissions.

(** X2: whatever the replies, when questions are submitted to
    [ChatInterface] one after the other, the transcript keeps what it had
    and gains, for every question that is not blank, the question as typed
    followed by exactly one message of the assistant; a blank question adds
    nothing. *)
Theorem X2_question_then_answer
  (subs : list (jsstring * ChatInterface.reply))
  (ms : list ChatInterface.message) :
  let after := ChatTranscript.submit_all subs ms in
  let added := ChatTranscript.submit_all subs [] in
  after = ms ++ added /\
  map ChatInterface.isUser added =
    flat_map
      (fun s => if ChatTranscript.asked s then [true; false] else [])
      subs /\
  map ChatInterface.text (filter ChatInterface.isUser added) =
    map fst (filter ChatTranscript.asked subs).
Proof.
  cbv zeta. split; [apply Submissions.submit_all_appends|].
  induction subs as [|s subs (IH1 & IH2)]; [split; reflexivity|].
  rewrite Submissions.submit_all_cons.
  rewrite map_app, filter_app, map_app, IH1, IH2.
  cbn [flat_map filter]. unfold ChatTranscript.asked.
  unfold ChatInterface.handleSubmit.
  destruct (nonempty (trim (fst s))); cbn [negb]; [|split; reflexivity].
  destruct (snd s) as [|[|] response]; split; reflexivity.
Qed.

(* ================================================================== *)
(** ** EventSearch: what the replacement leaves                        *)
(* ================================================================== *)

Module Stripped.
Import EventSearch Replacement.

(** A string is its first run followed by a string that starts with
    another code unit. *)
Lemma run_ind (P : jsstring -> Prop) :
  P [] ->
  (forall c n t,
     match t with x :: _ => x <> c | [] => True end ->
     P t -> P (repeat c (S n) ++ t)) ->
  forall s, P s.
Proof.
  intros H0 Hrun s. remember (length s) as len eqn:E.
  revert s E. induction len as [len IH] using lt_wf_ind. intros s E.
  destruct s as [|c r]; [exact H0|].
  destruct (Replace.count_prefix_split c r) as (t & Hr & Ht).
  replace (c :: r) with (repeat c (S (count_prefix c r)) ++ t)
    by (simpl; congruence).
  apply Hrun; [assumption|].
  apply (IH (length t)); [|reflexivity].
  subst len. apply (f_equal (@length N)) in Hr.
  rewrite length_app, repeat_length in Hr. cbn [length]. lia.
Qed.

Lemma strip_head (t : jsstring) :
  match t with x :: _ => x <> H | [] => True end ->
  match strip t with x :: _ => x <> H | [] => True end.
Proof.
  destruct t as [|d r]; [trivial|]. intros Hd.
  rewrite Replace.strip_other by assumption. assumption.
Qed.

Lemma has_HH_other (c : N) (y : jsstring) :
  c <> H -> has_HH (c :: y) = has_HH y.
Proof.
  intros Hc. cbn [has_HH]. destruct y as [|b y']; [reflexivity|].
  destruct (N.eqb_spec c H); [contradiction | reflexivity].
Qed.

Lemma has_HH_other_run (c : N) (n : nat) (y : jsstring) :
  c <> H -> has_HH (repeat c n ++ y) = has_HH y.
Proof.
  intros Hc. induction n as [|n IH]; [reflexivity|].
  cbn [repeat app]. rewrite has_HH_other; assumption.
Qed.

Lemma has_HH_single (y : jsstring) :
  match y with x :: _ => x <> H | [] => True end ->
  has_HH (H :: y) = has_HH y.
Proof.
  intros Hy. cbn [has_HH]. destruct y as [|b y']; [reflexivity|].
  destruct (N.eqb_spec b H); [contradiction|].
  rewrite andb_false_r. reflexivity.
Qed.

Lemma strip_clean (s : jsstring) : has_HH (strip s) = false.
Proof.
  induction s as [|c n t Ht IH] using run_ind; [reflexivity|].
  destruct (N.eq_dec c H) as [->|Hc].
  - rewrite Replace.strip_H_run by assumption. destruct n; [|assumption].
    rewrite has_HH_single; [assumption | apply strip_head; assumption].
  - rewrite Replace.strip_other_run, has_HH_other_run; assumption.
Qed.

Lemma filter_not_H_run (n : nat) (y : jsstring) :
  filter not_H (repeat H n ++ y) = filter not_H y.
Proof.
  induction n as [|n IH]; [reflexivity|].
  cbn [repeat app filter]. unfold not_H at 1. rewrite N.eqb_refl. exact IH.
Qed.

Lemma strip_keeps_others (s : jsstring) :
  filter not_H (strip s) = filter not_H s.
Proof.
  induction s as [|c n t Ht IH] using run_ind; [reflexivity|].
  destruct (N.eq_dec c H) as [->|Hc].
  - rewrite Replace.strip_H_run, filter_not_H_run by assumption.
    destruct n; [|assumption].
    cbn [filter]. unfold not_H at 1. rewrite N.eqb_refl. assumption.
  - rewrite Replace.strip_other_run by assumption.
    rewrite !filter_app, IH. reflexivity.
Qed.

Lemma strip_shorter (s : jsstring) :
  length (strip s) <= length s /\
  (has_HH s = true -> length (strip s) < length s).
Proof.
  induction s as [|c n t Ht (IH1 & IH2)] using run_ind;
    [split; [reflexivity | discriminate]|].
  destruct (N.eq_dec c H) as [->|Hc].
  - rewrite Replace.strip_H_run by assumption.
    rewrite length_app, repeat_length. destruct n as [|n].
    + cbn [repeat app]. rewrite has_HH_single by assumption.
      cbn [length]. split; [lia|]. intros Hh. specialize (IH2 Hh). lia.
    + split; [lia|]. intros _. lia.
  - rewrite Replace.strip_other_run, has_HH_other_run by assumption.
    rewrite !length_app. split; [lia|]. intros Hh. specialize (IH2 Hh). lia.
Qed.

End Stripped.

(** X3: the content [getChatResponse] stores for a reply never holds two
    adjacent 'H', and passing it through the replacement again changes
    nothing. *)
Theorem X3_stored_content_has_no_HH (m : jsstring) :
  EventSearch.has_HH (EventSearch.strip m) = false /\
  (forall a b, EventSearch.strip m <> a ++ EventSearch.H :: EventSearch.H :: b) /\
  EventSearch.strip (EventSearch.strip m) = EventSearch.strip m.
Proof.
  pose proof (Stripped.strip_clean m) as Hc.
  split; [exact Hc|]. split.
  - intros a b E.
    assert (Ht : EventSearch.has_HH (EventSearch.strip m) = true)
      by (apply Replace.has_HH_spec; eauto).
    congruence.
  - apply Replace.strip_no_HH. exact Hc.
Qed.

(** X4: the replacement only ever deletes 'H': the other code units of the
    reply are stored, in their order; the stored content is never longer
    than the reply, and it is the reply itself exactly when the reply has
    no two adjacent 'H'. *)
Theorem X4_replacement_only_deletes_H (m : jsstring) :
  filter Replacement.not_H (EventSearch.strip m) =
    filter Replacement.not_H m /\
  length (EventSearch.strip m) <= length m /\
  (EventSearch.strip m = m <-> EventSearch.has_HH m = false).
Proof.
  split; [apply Stripped.strip_keeps_others|].
  destruct (Stripped.strip_shorter m) as (Hle & Hlt).
  split; [exact Hle|]. split.
  - intros E. destruct (EventSearch.has_HH m) eqn:Hh; [|reflexivity].
    specialize (Hlt eq_refl). rewrite E in Hlt. lia.
  - apply Replace.strip_no_HH.
Qed.

Lemma X4_replacement_only_deletes_H_witness :
  EventSearch.strip (lit "HaHHHb") = lit "Hab" /\
  filter Replacement.not_H (EventSearch.strip (lit "HaHHHb")) = lit "ab" /\
  EventSearch.strip (lit "HaHb") = lit "HaHb".
Proof.
  split; [reflexivity|]. split.
  - rewrite (proj1 (X4_replacement_only_deletes_H (lit "HaHHHb"))). reflexivity.
  - apply (proj2 (proj2 (X4_replacement_only_deletes_H (lit "HaHb")))).
    reflexivity.
Defined.

Lemma X3_stored_content_has_no_HH_witness :
  EventSearch.strip (lit "HHaHHHb") = lit "ab" /\
  lit "ab" <> lit "a" ++ EventSearch.H :: EventSearch.H :: lit "b".
Proof.
  split; [reflexivity|].
  pose proof (proj1 (proj2 (X3_stored_content_has_no_HH (lit "HHaHHHb")))
                (lit "a") (lit "b")) as Hn.
  exact Hn.
Defined.

(* ================================================================== *)
(** ** EventSearch: one query                                          *)
(* ================================================================== *)

Module QueryFacts.
Import Query.

Lemma or_else_truthy (a b : json) : truthy a = true -> or_else a b = a.
Proof. unfold or_else. intros ->. reflexivity. Qed.

Lemma or_else_falsy (a b : json) : truthy a = false -> or_else a b = b.
Proof. unfold or_else. intros ->. reflexivity. Qed.

Lemma truthy_or_else (a b : json) :
  truthy (or_else a b) = truthy a || truthy b.
Proof. unfold or_else. destruct (truthy a) eqn:E; [rewrite E|]; reflexivity. Qed.

(** The three cases of the stored [url]. *)
Lemma process_url {A : Type} (e : event A) :
  url (process e) =
  if truthy (url e) then url e
  else if truthy (metadata_url e) then metadata_url e
  else jstring [].
Proof.
  cbn [process url]. unfold or_else at 2.
  destruct (truthy (url e)) eqn:Hu.
  - apply or_else_truthy. assumption.
  - unfold or_else. destruct (truthy (metadata_url e)); reflexivity.
Qed.

Lemma process_url_truthy_or_empty {A : Type} (e : event A) :
  truthy (url (process e)) = true \/ url (process e) = jstring [].
Proof.
  rewrite process_url.
  destruct (truthy (url e)) eqn:Hu; [auto|].
  destruct (truthy (metadata_url e)) eqn:Hm; auto.
Qed.

End QueryFacts.

(** X5: the [url] of an event that [searchEvents] stores is the one of the
    event when that is truthy, else the [event_url] of its metadata when
    that is truthy, else the empty string; so it is never a falsy value
    other than [''], and it is a string when the two fields of the event
    are strings or absent.  An event whose [url] is truthy is stored as it
    is, processing never touches the other fields, and processing an event
    again changes nothing. *)
Theorem X5_event_url_stored (A : Type) (e : Query.event A) :
  (Query.truthy (Query.url e) = true -> Query.process e = e) /\
  (Query.truthy (Query.url e) = false ->
   Query.truthy (Query.metadata_url e) = true ->
   Query.url (Query.process e) = Query.metadata_url e) /\
  (Query.truthy (Query.url e) = false ->
   Query.truthy (Query.metadata_url e) = false ->
   Query.url (Query.process e) = Query.jstring []) /\
  (Query.truthy (Query.url (Query.process e)) = true \/
   Query.url (Query.process e) = Query.jstring []) /\
  ((forall t w, Query.url e <> Query.jother t w) ->
   (forall t w, Query.metadata_url e <> Query.jother t w) ->
   exists s, Query.url (Query.process e) = Query.jstring s) /\
  Query.metadata (Query.process e) = Query.metadata e /\
  Query.other (Query.process e) = Query.other e /\
  Query.process (Query.process e) = Query.process e.
Proof.
  split; [|split; [|split; [|split; [|split]]]].
  - destruct e as [[|[|c r]|[|] w] m o]; cbn; intros Hu;
      try discriminate; reflexivity.
  - intros Hu Hm. rewrite QueryFacts.process_url, Hu, Hm. reflexivity.
  - intros Hu Hm. rewrite QueryFacts.process_url, Hu, Hm. reflexivity.
  - apply QueryFacts.process_url_truthy_or_empty.
  - destruct e as [[|s|t w] [[|s'|t' w']|] o]; cbn; intros Hu Hm;
      try (destruct (Hu t w); reflexivity);
      try (destruct (Hm t' w'); reflexivity);
      try destruct s as [|c r]; try destruct s' as [|d r']; cbn; eauto.
  - split; [reflexivity|]. split; [reflexivity|].
    destruct e as [[|[|c r]|[|] w] [[|[|d r']|[|] w']|] o]; reflexivity.
Qed.

Lemma X5_event_url_stored_witness :
  let own := {| Query.url := Query.jstring (lit "https://a.example/1");
                Query.metadata := Some Query.jundefined;
                Query.other := tt |} in
  let meta := {| Query.url := Query.jstring [];
                 Query.metadata :=
                   Some (Query.jstring (lit "https://b.example/2"));
                 Query.other := tt |} in
  let none := {| Query.url := Query.jother false 0;
                 Query.metadata := None;
                 Query.other := tt |} in
  Query.truthy (Query.url own) = true /\ Query.process own = own /\
  Query.truthy (Query.url meta) = false /\
  Query.url (Query.process meta) =
    Query.jstring (lit "https://b.example/2") /\
  Query.truthy (Query.metadata_url none) = false /\
  Query.url (Query.process none) = Query.jstring [].
Proof.
  cbv zeta. split; [reflexivity|]. split.
  { apply (proj1
             (X5_event_url_stored
                {| Query.url := Query.jstring (lit "https://a.example/1");
                   Query.metadata := Some Query.jundefined;
                   Query.other := tt |})).
    reflexivity. }
  split; [reflexivity|]. split.
  { apply (proj1 (proj2
             (X5_event_url_stored
                {| Query.url := Query.jstring [];
                   Query.metadata :=
                     Some (Query.jstring (lit "https://b.example/2"));
                   Query.other := tt |}))); reflexivity. }
  split; [reflexivity|].
  apply (proj1 (proj2 (proj2
           (X5_event_url_stored
              {| Query.url := Query.jother false 0;
                 Query.metadata := None;
                 Query.other := tt |})))); reflexivity.
Defined.

(** X6: while one query is in flight the form is never disabled: starting
    from a state in which nothing is loading, in every state [handleSubmit]
    goes through at most one of [isLoadingEvents] and [isLoadingChat] is
    set, and both are cleared at the end, however the two requests
    settle. *)
Theorem X6_query_never_disables_form (A P D : Type) (now now' : N)
  (sr : Query.search_reply A P D) (cr : EventSearch.reply) (s : Query.app A) :
  Query.isLoadingEvents s = false ->
  Query.isLoadingChat s = false ->
  (forall a, In a (Query.handleSubmit now now' sr cr s) ->
             Query.disabled a = false) /\
  Query.isLoadingEvents (Query.final s (Query.handleSubmit now now' sr cr s))
    = false /\
  Query.isLoadingChat (Query.final s (Query.handleSubmit now now' sr cr s))
    = false.
Proof.
  destruct s as [ms es input le lc]. cbn [Query.isLoadingEvents Query.isLoadingChat].
  intros -> ->. unfold Query.handleSubmit. cbn [Query.userInput].
  destruct (nonempty (trim input)); cbn [negb];
    [|split; [intros a []|split; reflexivity]].
  destruct sr as [|[evs|] pe td]; destruct cr as [|[[|c r]|]];
    (split; [intros a Hin; cbn in Hin; intuition (subst; reflexivity)
            | split; reflexivity]).
Qed.

Lemma X6_query_never_disables_form_witness :
  let s := {| Query.messages := []; Query.events := @nil (Query.event unit);
              Query.userInput := lit "jazz"; Query.isLoadingEvents := false;
              Query.isLoadingChat := false |} in
  let trace :=
    Query.handleSubmit 1 2
      (Query.SearchParsed (Some []) (Some [tt]) tt)
      (EventSearch.Parsed (Some (lit "ok"))) s in
  length trace = 8 /\ forallb (fun a => negb (Query.disabled a)) trace = true.
Proof.
  cbv zeta. split; [reflexivity|].
  apply forallb_forall. intros a Hin. apply negb_true_iff.
  revert a Hin.
  apply (proj1 (X6_query_never_disables_form 1 2
                  (Query.SearchParsed (Some []) (Some [tt]) tt)
                  (EventSearch.Parsed (Some (lit "ok")))
                  {| Query.messages := [];
                     Query.events := @nil (Query.event unit);
                     Query.userInput := lit "jazz";
                     Query.isLoadingEvents := false;
                     Query.isLoadingChat := false |} eq_refl eq_refl)).
Defined.

(** X7: what one query leaves behind.  The question is appended to the
    transcript as it was typed and the input is cleared.  When the search
    is rejected, or its reply has no array of events, the list of events
    stays as it was and nothing else is appended: no chat request is sent
    and no apology is shown.  When the search replies with events, they
    are stored processed, and the transcript is the one [getChatResponse]
    makes of the transcript with the question. *)
Theorem X7_query_outcome (A P D : Type) (now now' : N)
  (sr : Query.search_reply A P D) (cr : EventSearch.reply) (s : Query.app A) :
  nonempty (trim (Query.userInput s)) = true ->
  let question :=
    {| EventSearch.id := now; EventSearch.type := EventSearch.user;
       EventSearch.content := Query.userInput s |} in
  let after := Query.final s (Query.handleSubmit now now' sr cr s) in
  Query.userInput after = [] /\
  (exists tail,
     Query.messages after = Query.messages s ++ question :: tail /\
     length tail <= 1 /\
     Forall (fun m => EventSearch.type m = EventSearch.system) tail) /\
  match sr with
  | Query.SearchParsed (Some evs) _ _ =>
      Query.events after = map (@Query.process A) evs /\
      Query.messages after =
        EventSearch.messages
          (EventSearch.getChatResponse now' cr
             {| EventSearch.messages := Query.messages s ++ [question];
                EventSearch.isLoadingChat := true |})
  | _ =>
      Query.events after = Query.events s /\
      Query.messages after = Query.messages s ++ [question]
  end.
Proof.
  destruct s as [ms es input le lc]. cbn [Query.userInput Query.messages Query.events].
  intros Hin. unfold Query.handleSubmit. cbn [Query.userInput]. rewrite Hin.
  cbn [negb].
  destruct sr as [|[evs|] pe td]; destruct cr as [|[[|c r]|]]; cbn;
    (split; [reflexivity|]);
    (split; [|split; reflexivity]);
    try (exists []; split; [reflexivity|]; split; [cbn; lia | constructor]);
    (eexists [_]; split; [rewrite <- app_assoc; reflexivity|];
     split; [cbn; lia | repeat constructor]).
Qed.

Lemma X7_query_outcome_witness :
  let s := {| Query.messages := []; Query.events := @nil (Query.event unit);
              Query.userInput := lit " jazz"; Query.isLoadingEvents := false;
              Query.isLoadingChat := false |} in
  nonempty (trim (Query.userInput s)) = true /\
  Query.messages
    (Query.final s
       (Query.handleSubmit 1 2 (@Query.SearchRejected unit unit unit)
          EventSearch.Rejected s)) =
    [{| EventSearch.id := 1%N; EventSearch.type := EventSearch.user;
        EventSearch.content := lit " jazz" |}].
Proof.
  cbv zeta. split; [reflexivity|].
  exact (proj2 (proj2 (proj2
           (X7_query_outcome 1 2 (@Query.SearchRejected unit unit unit)
              EventSearch.Rejected
              {| Query.messages := [];
                 Query.events := @nil (Query.event unit);
                 Query.userInput := lit " jazz";
                 Query.isLoadingEvents := false;
                 Query.isLoadingChat := false |} eq_refl)))).
Defined.

(* ================================================================== *)
(** ** EventsList                                                      *)
(* ================================================================== *)

Module ListFacts.
Import EventsList.

Lemma obj_get_set_same (o : object) (k : nat) (v : bool) :
  obj_get (obj_set o k v) k = Some v.
Proof.
  induction o as [|(j, w) r IH]; cbn.
  - rewrite Nat.eqb_refl. reflexivity.
  - destruct (Nat.eqb j k) eqn:E; cbn; rewrite E; [reflexivity | exact IH].
Qed.

Lemma obj_get_set_other (o : object) (k j : nat) (v : bool) :
  j <> k -> obj_get (obj_set o k v) j = obj_get o j.
Proof.
  intros Hjk. induction o as [|(i, w) r IH]; cbn.
  - destruct (Nat.eqb_spec k j); [congruence | reflexivity].
  - destruct (Nat.eqb_spec i k) as [->|_]; cbn.
    + destruct (Nat.eqb_spec k j); [congruence | reflexivity].
    + rewrite IH. reflexivity.
Qed.

Lemma clicks_visible (k : nat) (st : state) :
  visibleEvents (clicks k st) = visibleEvents st + 5 * k /\
  expandedCards (clicks k st) = expandedCards st.
Proof.
  induction k as [|k (IH1 & IH2)]; [cbn; split; [lia | reflexivity]|].
  change (clicks (S k) st) with (handleLoadMore (clicks k st)).
  cbn [handleLoadMore visibleEvents expandedCards].
  rewrite IH1, IH2. split; [lia | reflexivity].
Qed.

End ListFacts.

(** X8: what [EventsList] renders.  While [isLoading] it is a spinner,
    with no heading, no card and no button, whatever the events and the
    state.  Otherwise the cards are an initial segment of the events, five
    at first and five more with each click on the button; the button is
    offered exactly when some event has no card; a click then adds the
    cards of the next events, five of them or all that are left, and after
    [length events / 5] clicks every event has its card and the button is
    gone. *)
Theorem X8_load_more (E : Type) (events : list E) (st : EventsList.state)
  (k : nat) :
  EventsList.render events true st =
    {| EventsList.spinner := true; EventsList.heading := None;
       EventsList.cards := []; EventsList.button := false |} /\
  EventsList.spinner (EventsList.render events false st) = false /\
  EventsList.heading (EventsList.render events false st) =
    Some (length events) /\
  events =
    EventsList.cards (EventsList.render events false st) ++
    skipn (EventsList.visibleEvents st) events /\
  (EventsList.button (EventsList.render events false st) = false <->
   EventsList.cards (EventsList.render events false st) = events) /\
  (EventsList.button (EventsList.render events false st) = true ->
   EventsList.cards
     (EventsList.render events false (EventsList.handleLoadMore st)) =
     EventsList.cards (EventsList.render events false st) ++
     firstn 5 (skipn (EventsList.visibleEvents st) events) /\
   length (EventsList.cards (EventsList.render events false st)) <
     length (EventsList.cards
               (EventsList.render events false
                  (EventsList.handleLoadMore st)))) /\
  EventsList.cards
    (EventsList.render events false
       (EventsList.clicks k EventsList.initial)) =
    firstn (5 + 5 * k) events /\
  EventsList.cards
    (EventsList.render events false
       (EventsList.clicks (length events / 5) EventsList.initial)) = events /\
  EventsList.button
    (EventsList.render events false
       (EventsList.clicks (length events / 5) EventsList.initial)) = false.
Proof.
  assert (Hall : firstn
                   (EventsList.visibleEvents
                      (EventsList.clicks (length events / 5) EventsList.initial))
                   events = events /\
                 length events <=
                   EventsList.visibleEvents
                     (EventsList.clicks (length events / 5) EventsList.initial)).
  { destruct (ListFacts.clicks_visible (length events / 5) EventsList.initial)
      as (-> & _).
    cbn [EventsList.initial EventsList.visibleEvents].
    pose proof (Nat.div_mod_eq (length events) 5) as Hd.
    pose proof (Nat.mod_upper_bound (length events) 5 ltac:(lia)).
    split; [apply firstn_all2|]; lia. }
  unfold EventsList.render, EventsList.slice, EventsList.hasMoreEvents.
  cbn [EventsList.spinner EventsList.heading EventsList.cards EventsList.button].
  split; [reflexivity|]. split; [reflexivity|]. split; [reflexivity|].
  split; [|split; [|split; [|split; [|split]]]].
  - symmetry. apply firstn_skipn.
  - rewrite Nat.ltb_ge. split.
    + apply firstn_all2.
    + intros Heq. apply (f_equal (@length E)) in Heq.
      rewrite length_firstn in Heq. lia.
  - rewrite Nat.ltb_lt. intros Hlt.
    cbn [EventsList.handleLoadMore EventsList.visibleEvents].
    split.
    + rewrite firstn_skipn_comm.
      replace (firstn (EventsList.visibleEvents st) events)
        with (firstn (EventsList.visibleEvents st)
                (firstn (EventsList.visibleEvents st + 5) events))
        by (rewrite firstn_firstn; f_equal; lia).
      symmetry. apply firstn_skipn.
    + rewrite !length_firstn. lia.
  - destruct (ListFacts.clicks_visible k EventsList.initial) as (-> & _).
    reflexivity.
  - apply Hall.
  - apply Nat.ltb_ge. apply Hall.
Qed.

Lemma X8_load_more_witness :
  let events := seq 0 12 in
  EventsList.button
    (EventsList.render events false EventsList.initial) = true /\
  EventsList.cards
    (EventsList.render events false
       (EventsList.handleLoadMore EventsList.initial)) = seq 0 10 /\
  EventsList.cards
    (EventsList.render events false
       (EventsList.clicks 2 EventsList.initial)) = events /\
  EventsList.cards (EventsList.render events true EventsList.initial) = [].
Proof.
  cbv zeta.
  destruct (X8_load_more (seq 0 12) EventsList.initial 2)
    as (Hload & _ & _ & _ & _ & Hmore & _ & Hall & _).
  split; [reflexivity|]. split.
  - rewrite (proj1 (Hmore eq_refl)). reflexivity.
  - split; [exact Hall|]. rewrite Hload. reflexivity.
Defined.

(** X9: a click on "Afficher plus" or "Afficher moins" of a card flips
    whether that card is expanded and leaves every other card, and the
    number of events shown, as they were; a second click undoes the
    first. *)
Theorem X9_toggle_expand (st : EventsList.state) (i j : nat) :
  let st' := EventsList.handleToggleExpand i st in
  EventsList.isExpanded st' i = negb (EventsList.isExpanded st i) /\
  (j <> i -> EventsList.isExpanded st' j = EventsList.isExpanded st j) /\
  EventsList.visibleEvents st' = EventsList.visibleEvents st /\
  EventsList.isExpanded (EventsList.handleToggleExpand i st') j =
    EventsList.isExpanded st j.
Proof.
  cbv zeta.
  assert (Hi : forall s,
            EventsList.isExpanded (EventsList.handleToggleExpand i s) i =
            negb (EventsList.isExpanded s i)).
  { intros s. unfold EventsList.isExpanded, EventsList.handleToggleExpand.
    cbn [EventsList.expandedCards]. rewrite ListFacts.obj_get_set_same.
    unfold EventsList.truthy.
    destruct (EventsList.obj_get (EventsList.expandedCards s) i) as [[|]|];
      reflexivity. }
  assert (Hj : forall s, j <> i ->
            EventsList.isExpanded (EventsList.handleToggleExpand i s) j =
            EventsList.isExpanded s j).
  { intros s Hji. unfold EventsList.isExpanded, EventsList.handleToggleExpand.
    cbn [EventsList.expandedCards].
    rewrite ListFacts.obj_get_set_other by assumption. reflexivity. }
  split; [apply Hi|]. split; [apply Hj|]. split; [reflexivity|].
  destruct (Nat.eq_dec j i) as [->|Hji].
  - rewrite !Hi. apply negb_involutive.
  - rewrite !Hj by assumption. reflexivity.
Qed.

Lemma X9_toggle_expand_witness :
  EventsList.isExpanded
    (EventsList.handleToggleExpand 3 EventsList.initial) 3 = true /\
  EventsList.isExpanded
    (EventsList.handleToggleExpand 3 EventsList.initial) 4 = false.
Proof.
  destruct (X9_toggle_expand EventsList.initial 3 4) as (H3 & H4 & _).
  split; [exact H3|]. rewrite H4; [reflexivity | discriminate].
Defined.

(* ================================================================== *)
(** ** AnimatedEventCard                                               *)
(* ================================================================== *)

Lemma earliest_head (t : Timers.timer) (r : list Timers.timer) :
  (forall u, In u r -> (Timers.due t <= Timers.due u)%Z) ->
  Timers.earliest (t :: r) = Some t.
Proof.
  intros Hr. cbn [Timers.earliest].
  destruct (Timers.earliest r) as [u|] eqn:E; [|reflexivity].
  specialize (Hr u (earliest_In _ E)).
  destruct (Z.ltb_spec (Timers.due u) (Timers.due t)); [lia | reflexivity].
Qed.

Lemma store_repeat {A : Type} (k : nat) (a x y : A) (l : list A) :
  store k x (repeat a k ++ y :: l) = repeat a k ++ x :: l.
Proof. induction k as [|k IH]; cbn; [reflexivity|]. rewrite IH. reflexivity. Qed.

Module CardFacts.
Import AnimatedEventCard.

Lemma mounted (n from : nat) (st : state) :
  length (isVisible st) = from ->
  Timers.next_handle (timers st) = S from ->
  Timers.clock (timers st) = 0%Z ->
  mount_cards from n st =
  {| isVisible := isVisible st ++ repeat false n;
     timers :=
       {| Timers.clock := 0;
          Timers.pending :=
            Timers.pending (timers st) ++ map card_timer (seq from n);
          Timers.next_handle := S (from + n) |} |}.
Proof.
  revert from st; induction n as [|n IH]; intros from st Hl Hh Hc.
  - cbn. rewrite !app_nil_r, Nat.add_0_r, <- Hh, <- Hc.
    destruct st as [v [c p h]]. reflexivity.
  - cbn [mount_cards]. rewrite IH.
    + cbn. rewrite Hl, Hh, Hc, <- !app_assoc. cbn.
      unfold card_timer at 2. do 4 f_equal. lia.
    + cbn. rewrite length_app, Hl. cbn. lia.
    + cbn. rewrite Hh. reflexivity.
    + cbn. assumption.
Qed.

Lemma ticked (n k : nat) :
  k <= n ->
  ticks k (mount_cards 0 n empty) =
  {| isVisible := repeat true k ++ repeat false (n - k);
     timers :=
       {| Timers.clock := Z.max 0 (150 * (Z.of_nat k - 2));
          Timers.pending := map card_timer (seq k (n - k));
          Timers.next_handle := S n |} |}.
Proof.
  induction k as [|k IH]; intros Hk.
  - cbn [ticks Nat.iter nat_rect]. rewrite mounted by reflexivity.
    cbn. rewrite Nat.sub_0_r. reflexivity.
  - change (ticks (S k) (mount_cards 0 n empty))
      with (tick (ticks k (mount_cards 0 n empty))).
    rewrite IH by lia. unfold tick, Timers.fire. cbn [timers Timers.pending].
    replace (n - k) with (S (n - S k)) by lia.
    cbn [seq map repeat]. rewrite earliest_head.
    + cbn [Timers.period Timers.owner Timers.handle Timers.due Timers.clock
           card_timer isVisible filter].
      rewrite Nat.eqb_refl. cbn [negb].
      rewrite store_repeat.
      rewrite filter_all.
      * f_equal.
        -- change (true :: repeat false (n - S k))
             with ([true] ++ repeat false (n - S k)).
           rewrite app_assoc, <- (repeat_cons k true). reflexivity.
        -- f_equal. lia.
      * intros u Hu. apply in_map_iff in Hu. destruct Hu as (i & <- & Hi).
        apply in_seq in Hi. cbn [card_timer Timers.handle].
        apply negb_true_iff, Nat.eqb_neq. lia.
    + intros u Hu. apply in_map_iff in Hu. destruct Hu as (i & <- & Hi).
      apply in_seq in Hi. cbn [card_timer Timers.due]. lia.
Qed.

Lemma idle_tick (st : state) :
  Timers.pending (timers st) = [] -> tick st = st.
Proof. intros Hp. unfold tick, Timers.fire. rewrite Hp. reflexivity. Qed.

End CardFacts.

(** X10: the cards of a list of [n] events that are mounted together
    become visible in the order of the list, one with each timeout that
    fires and none twice.  The card at position [i] waits
    [150 * (i - 1)] ms, and no less than 0: the first two cards are due at
    once, the following ones 150 ms apart.  When all cards are visible no
    timeout is left. *)
Theorem X10_cards_appear_in_order (n k : nat) :
  let st := AnimatedEventCard.ticks k
              (AnimatedEventCard.mount_cards 0 n AnimatedEventCard.empty) in
  AnimatedEventCard.isVisible st =
    repeat true (Nat.min k n) ++ repeat false (n - k) /\
  Timers.clock (AnimatedEventCard.timers st) =
    Z.max 0 (150 * (Z.of_nat (Nat.min k n) - 2)) /\
  Timers.pending (AnimatedEventCard.timers st) =
    map AnimatedEventCard.card_timer (seq k (n - k)).
Proof.
  cbv zeta.
  destruct (Nat.le_gt_cases k n) as [Hk|Hk].
  - rewrite CardFacts.ticked, Nat.min_l by assumption. repeat split.
  - assert (E : AnimatedEventCard.ticks k
                  (AnimatedEventCard.mount_cards 0 n AnimatedEventCard.empty) =
                AnimatedEventCard.ticks n
                  (AnimatedEventCard.mount_cards 0 n AnimatedEventCard.empty)).
    { induction k as [|k IH]; [lia|].
      change (AnimatedEventCard.ticks (S k) ?s)
        with (AnimatedEventCard.tick (AnimatedEventCard.ticks k s)).
      destruct (Nat.eq_dec k n) as [->|Hne].
      - apply CardFacts.idle_tick. rewrite CardFacts.ticked by lia.
        cbn. rewrite Nat.sub_diag. reflexivity.
      - rewrite IH by lia. apply CardFacts.idle_tick.
        rewrite CardFacts.ticked by lia. cbn. rewrite Nat.sub_diag. reflexivity. }
    rewrite E, CardFacts.ticked, Nat.min_r by lia.
    replace (n - k) with 0 by lia. rewrite Nat.sub_diag. repeat split.
Qed.

(* ================================================================== *)
(** ** How far a session goes, under any schedule                      *)
(* ================================================================== *)

Lemma revealed_length (us : list jsstring) (k : nat) :
  length (revealed AtRender us k) = Nat.min k (S (length us)).
Proof.
  cbn [revealed]. rewrite length_app, length_map, length_firstn.
  destruct (Nat.ltb_spec (length us) k); cbn [length]; lia.
Qed.

Module ChatProgress.
Import ChatMessage.

(** When React calls the updater does not change which timers are armed,
    where the cursors stand, or how many entries are revealed. *)
Lemma chat_step_shape (st1 st2 : state) (m1 m2 : updater_time) :
  closures st1 = closures st2 ->
  timers st1 = timers st2 ->
  length (visibleParagraphs st1) = length (visibleParagraphs st2) ->
  closures (step st1 (Tick m1)) = closures (step st2 (Tick m2)) /\
  timers (step st1 (Tick m1)) = timers (step st2 (Tick m2)) /\
  length (visibleParagraphs (step st1 (Tick m1))) =
    length (visibleParagraphs (step st2 (Tick m2))).
Proof.
  intros Hc Ht Hl. cbn [step]. rewrite Ht.
  destruct (Timers.fire (timers st2)) as [[tm p]|]; [|auto].
  unfold showNextParagraph. cbn [closures with_timers]. rewrite Hc.
  destruct (nth_error (closures st2) (Timers.owner tm)) as [c|]; [|cbn; auto].
  destruct (currentIndex c <? Z.of_nat (length (captured c)))%Z; [|cbn; auto].
  cbn. rewrite !length_app, Hl. auto.
Qed.

Lemma chat_ticks_shape (sched : list updater_time) (st1 st2 : state) :
  closures st1 = closures st2 ->
  timers st1 = timers st2 ->
  length (visibleParagraphs st1) = length (visibleParagraphs st2) ->
  timers (ticks sched st1) =
    timers (ticks (repeat AtRender (length sched)) st2) /\
  length (visibleParagraphs (ticks sched st1)) =
    length (visibleParagraphs (ticks (repeat AtRender (length sched)) st2)).
Proof.
  revert st1 st2; induction sched as [|m sched IH]; intros st1 st2 Hc Ht Hl.
  - cbn. auto.
  - unfold ticks, run in *. cbn [length repeat map fold_left].
    destruct (chat_step_shape st1 st2 m AtRender Hc Ht Hl) as (Hc' & Ht' & Hl').
    apply IH; assumption.
Qed.

Lemma active_any (sched : list updater_time) (content : jsstring) :
  active (ticks sched (start content false)) =
  Nat.leb (length sched) (S (length (uniqueParagraphs content))).
Proof.
  destruct (chat_ticks_shape sched (start content false) (start content false)
              eq_refl eq_refl eq_refl) as (Ht & _).
  unfold active. rewrite Ht.
  apply (ChatSession.chat_active_iff AtRender content (length sched)).
Qed.

End ChatProgress.

(** X11: a session of a non-user [ChatMessage] over [n] derived paragraphs
    goes the same distance however React calls the updaters: after [k]
    ticks [min k (n + 1)] entries are revealed, every string among them is
    one of the paragraphs, and a timeout is pending exactly while
    [k <= n + 1].  So the chain of timeouts ends with tick [n + 2]. *)
Theorem X11_chat_session_progress (sched : list updater_time)
  (content : jsstring) :
  let n := length (uniqueParagraphs content) in
  let st := ChatMessage.ticks sched (ChatMessage.start content false) in
  length (ChatMessage.visibleParagraphs st) = Nat.min (length sched) (S n) /\
  ChatMessage.active st = Nat.leb (length sched) (S n) /\
  (forall s, In s (strings (ChatMessage.visibleParagraphs st)) ->
             In s (uniqueParagraphs content)) /\
  (S n < length sched ->
   st = ChatMessage.ticks (firstn (S (S n)) sched)
          (ChatMessage.start content false)).
Proof.
  cbv zeta.
  destruct (ChatProgress.chat_ticks_shape sched
              (ChatMessage.start content false)
              (ChatMessage.start content false) eq_refl eq_refl eq_refl)
    as (Ht & Hl).
  destruct (ChatSession.chat_session AtRender content (length sched))
    as (_ & Hv & _).
  split; [rewrite Hl, Hv; apply revealed_length|].
  split.
  { apply ChatProgress.active_any. }
  split; [apply ChatAnySchedule.session_reveals_only|].
  intros Hk.
  rewrite <- (firstn_skipn (S (S (length (uniqueParagraphs content)))) sched) at 1.
  unfold ChatMessage.ticks, ChatMessage.run. rewrite map_app, fold_left_app.
  apply ChatSession.chat_idle_ticks.
  fold (ChatMessage.run (ChatMessage.start content false)
          (map ChatMessage.Tick
             (firstn (S (S (length (uniqueParagraphs content)))) sched))).
  fold (ChatMessage.ticks
          (firstn (S (S (length (uniqueParagraphs content)))) sched)
          (ChatMessage.start content false)).
  destruct (ChatProgress.chat_ticks_shape
              (firstn (S (S (length (uniqueParagraphs content)))) sched)
              (ChatMessage.start content false)
              (ChatMessage.start content false) eq_refl eq_refl eq_refl)
    as (Ht' & _).
  rewrite Ht'.
  destruct (ChatSession.chat_session AtRender content
              (length (firstn (S (S (length (uniqueParagraphs content)))) sched)))
    as (_ & _ & _ & Hq).
  apply Hq. rewrite length_firstn. lia.
Qed.

Lemma X11_chat_session_progress_witness :
  let sched := [AtRender; AtCall; AtRender; AtCall; AtRender] in
  let st := ChatMessage.ticks sched
              (ChatMessage.start (text ["A"; "B"]) false) in
  3 < length sched /\
  length (ChatMessage.visibleParagraphs st) = 3 /\
  ChatMessage.active st = false /\
  st = ChatMessage.ticks (firstn 4 sched)
         (ChatMessage.start (text ["A"; "B"]) false).
Proof.
  cbv zeta. split; [cbn; lia|].
  destruct (X11_chat_session_progress
              [AtRender; AtCall; AtRender; AtCall; AtRender]
              (text ["A"; "B"])) as (Hl & Ha & _ & Hstop).
  split; [exact Hl|]. split; [exact Ha|].
  apply Hstop. cbn. lia.
Defined.

Module TypingProgress.
Import TypingMessage.

Lemma typing_step_shape (st1 st2 : state) (m1 m2 : updater_time) :
  closures st1 = closures st2 ->
  timers st1 = timers st2 ->
  isTyping st1 = isTyping st2 ->
  length (displayedParagraphs st1) = length (displayedParagraphs st2) ->
  closures (step st1 (Tick m1)) = closures (step st2 (Tick m2)) /\
  timers (step st1 (Tick m1)) = timers (step st2 (Tick m2)) /\
  isTyping (step st1 (Tick m1)) = isTyping (step st2 (Tick m2)) /\
  length (displayedParagraphs (step st1 (Tick m1))) =
    length (displayedParagraphs (step st2 (Tick m2))).
Proof.
  intros Hc Ht Hi Hl. cbn [step]. rewrite Ht.
  destruct (Timers.fire (timers st2)) as [[tm p]|]; [|auto].
  unfold callback. cbn [closures with_timers]. rewrite Hc.
  destruct (nth_error (closures st2) (Timers.owner tm)) as [c|]; [|cbn; auto].
  destruct (currentParagraphIndex c <? Z.of_nat (length (captured c)))%Z;
    cbn; rewrite ?length_app, ?Hl; auto.
Qed.

Lemma typing_ticks_shape (sched : list updater_time) (st1 st2 : state) :
  closures st1 = closures st2 ->
  timers st1 = timers st2 ->
  isTyping st1 = isTyping st2 ->
  length (displayedParagraphs st1) = length (displayedParagraphs st2) ->
  timers (ticks sched st1) =
    timers (ticks (repeat AtRender (length sched)) st2) /\
  isTyping (ticks sched st1) =
    isTyping (ticks (repeat AtRender (length sched)) st2) /\
  length (displayedParagraphs (ticks sched st1)) =
    length (displayedParagraphs (ticks (repeat AtRender (length sched)) st2)).
Proof.
  revert st1 st2; induction sched as [|m sched IH]; intros st1 st2 Hc Ht Hi Hl.
  - cbn. auto.
  - unfold ticks, run in *. cbn [length repeat map fold_left].
    destruct (typing_step_shape st1 st2 m AtRender Hc Ht Hi Hl)
      as (Hc' & Ht' & Hi' & Hl').
    apply IH; assumption.
Qed.

End TypingProgress.

(** X12: a session of [TypingMessage], however React calls the updaters.
    For the empty content no interval is armed, nothing is rendered and
    [isTyping] stays set.  For any other content with [n] derived
    paragraphs, after [k] ticks [min k (n + 1)] entries are displayed,
    every string among them is one of the paragraphs, and the indicator is
    shown and the interval armed exactly while [k <= n + 1]: tick [n + 2]
    clears both. *)
Theorem X12_typing_session_progress (sched : list updater_time)
  (content : jsstring) :
  let n := length (paragraphs content) in
  let st := TypingMessage.ticks sched (TypingMessage.start content) in
  (forall s, In s (strings (TypingMessage.displayedParagraphs st)) ->
             In s (paragraphs content)) /\
  match content with
  | [] =>
      st = TypingMessage.start [] /\
      TypingMessage.isTyping st = true /\
      Timers.pending (TypingMessage.timers st) = [] /\
      TypingMessage.render content st = None
  | _ :: _ =>
      length (TypingMessage.displayedParagraphs st) =
        Nat.min (length sched) (S n) /\
      TypingMessage.isTyping st = Nat.leb (length sched) (S n) /\
      Timers.idle (TypingMessage.timers st) =
        negb (Nat.leb (length sched) (S n)) /\
      TypingMessage.render content st =
        Some (TypingMessage.displayedParagraphs st,
              Nat.leb (length sched) (S n))
  end.
Proof.
  cbv zeta. split; [intros s; apply TypingAnySchedule.session_displays_only|].
  destruct content as [|c r].
  - rewrite TypingSession.typing_idle_ticks by reflexivity. repeat split.
  - set (content := c :: r).
    destruct (TypingProgress.typing_ticks_shape sched
                (TypingMessage.start content) (TypingMessage.start content)
                eq_refl eq_refl eq_refl eq_refl) as (Ht & Hi & Hl).
    assert (Hne : content <> []) by discriminate.
    destruct (TypingSession.typing_session AtRender (length sched) Hne)
      as (_ & Hv & Hp & Hq).
    assert (Hty : TypingMessage.isTyping
                    (TypingMessage.ticks sched (TypingMessage.start content)) =
                  Nat.leb (length sched) (S (length (paragraphs content)))).
    { rewrite Hi. destruct (Nat.leb_spec (length sched)
                              (S (length (paragraphs content)))) as [Hk|Hk].
      - apply Hp. assumption.
      - apply Hq. assumption. }
    split; [rewrite Hl, Hv; apply revealed_length|].
    split; [exact Hty|]. split.
    + rewrite Ht. unfold Timers.idle.
      destruct (Nat.leb_spec (length sched)
                  (S (length (paragraphs content)))) as [Hk|Hk].
      * destruct (Hp Hk) as (_ & d & ->). reflexivity.
      * destruct (Hq Hk) as (_ & ->). reflexivity.
    + unfold TypingMessage.render. cbn [nonempty content negb].
      rewrite Hty. reflexivity.
Qed.

Lemma X12_typing_session_progress_witness :
  let st := TypingMessage.ticks [AtCall; AtRender; AtRender; AtCall]
              (TypingMessage.start (text ["A"; "B"])) in
  In (lit "B") (strings (TypingMessage.displayedParagraphs st)) /\
  In (lit "B") (paragraphs (text ["A"; "B"])) /\
  TypingMessage.isTyping st = false.
Proof.
  cbv zeta.
  destruct (X12_typing_session_progress [AtCall; AtRender; AtRender; AtCall]
              (text ["A"; "B"])) as (Hin & _ & Hty & _).
  assert (Hb : In (lit "B")
                 (strings (TypingMessage.displayedParagraphs
                    (TypingMessage.ticks [AtCall; AtRender; AtRender; AtCall]
                       (TypingMessage.start (text ["A"; "B"]))))))
    by (vm_compute; left; reflexivity).
  split; [exact Hb|]. split; [exact (Hin _ Hb) | exact Hty].
Defined.

(* ================================================================== *)
(** ** TypingMessage: its interval                                     *)
(* ================================================================== *)

Module TypingInterval.
Import TypingMessage.

Lemma one_after_step (st : state) (e : event) :
  current st ->
  length (Timers.pending (timers st)) <= 1 ->
  length (Timers.pending (timers (step st e))) <= 1.
Proof.
  intros Hcur Hone. destruct e as [t content|m]; cbn [step].
  - destruct (same_deps _ content); [exact Hone|].
    pose proof (TypingRestart.cleanup_detaches
                  (st := with_timers st (Timers.advance t (timers st))) Hcur)
      as Hd.
    unfold effect. destruct (nonempty content); cbn; rewrite Hd; cbn; lia.
  - unfold Timers.fire.
    destruct (Timers.pending (timers st)) as [|t [|u l]] eqn:Hp;
      [cbn; rewrite Hp; cbn; lia | | cbn in Hone; lia].
    cbn [Timers.earliest filter]. rewrite Nat.eqb_refl. cbn [negb].
    unfold callback. cbn [closures with_timers timers].
    destruct (nth_error (closures st) (Timers.owner t)) as [c|];
      [|cbn; destruct (Timers.period t); cbn; lia].
    destruct (currentParagraphIndex c <? Z.of_nat (length (captured c)))%Z.
    + cbn. destruct (Timers.period t); cbn; lia.
    + cbn. destruct (Timers.period t); cbn;
        [destruct (negb _); cbn; lia | lia].
Qed.

Lemma one_interval (content0 : jsstring) (es : list event) :
  length (Timers.pending (timers (run (initial content0) es))) <= 1.
Proof.
  unfold run.
  assert (H0 : current (initial content0) /\
               length (Timers.pending (timers (initial content0))) <= 1)
    by (split; [split; intros ? [] | cbn; lia]).
  revert H0. generalize (initial content0).
  induction es as [|e es IH]; intros st (Hc & Hl); [exact Hl|].
  cbn. apply IH. split.
  - apply TypingRestart.current_step. exact Hc.
  - apply one_after_step; assumption.
Qed.

End TypingInterval.

(** X13: whatever contents [TypingMessage] is given, whenever they arrive
    and however the ticks fall in between, at most one interval is armed
    at any time, it is the one the clean-up will clear, and every string
    displayed is a paragraph of the current content: a replaced content
    never shows through. *)
Theorem X13_typing_message_restarts_cleanly (content0 : jsstring)
  (es : list TypingMessage.event) :
  let st := TypingMessage.run (TypingMessage.initial content0) es in
  length (Timers.pending (TypingMessage.timers st)) <= 1 /\
  (forall t, In t (Timers.pending (TypingMessage.timers st)) ->
             TypingMessage.cleanup st = Some (Timers.handle t)) /\
  (forall s, In s (strings (TypingMessage.displayedParagraphs st)) ->
             exists c, TypingMessage.deps st = Some c /\
                       In s (paragraphs c)).
Proof.
  cbv zeta.
  destruct (TypingRestart.typing_message_never_stale content0 es) as (Hs & Ht).
  split; [apply TypingInterval.one_interval|].
  split; [|exact Hs].
  intros t Hin. destruct (Ht t Hin) as (c & cl & _ & _ & _ & _ & E). exact E.
Qed.

Lemma X13_typing_message_restarts_cleanly_witness :
  let st :=
    TypingMessage.run (TypingMessage.initial (text ["X"; "W"]))
      [TypingMessage.Props 0 (text ["X"; "W"]); TypingMessage.Tick AtRender;
       TypingMessage.Props 700 (text ["Y"; "Z"]);
       TypingMessage.Tick AtRender; TypingMessage.Tick AtRender] in
  TypingMessage.displayedParagraphs st = [str (lit "Y"); str (lit "Z")] /\
  TypingMessage.deps st = Some (text ["Y"; "Z"]) /\
  exists c, TypingMessage.deps st = Some c /\ In (lit "Z") (paragraphs c).
Proof.
  cbv zeta. split; [reflexivity|]. split; [reflexivity|].
  destruct (X13_typing_message_restarts_cleanly (text ["X"; "W"])
              [TypingMessage.Props 0 (text ["X"; "W"]);
               TypingMessage.Tick AtRender;
               TypingMessage.Props 700 (text ["Y"; "Z"]);
               TypingMessage.Tick AtRender; TypingMessage.Tick AtRender])
    as (_ & _ & Hs).
  apply Hs. vm_compute. right. left. reflexivity.
Defined.

(* ================================================================== *)
(** ** ChatMessage: a new content between sessions                     *)
(* ================================================================== *)

Module ChatRestart.
Import ChatMessage ChatLive.

Lemma chat_tick_keeps_deps (st : state) (m : updater_time) :
  deps (step st (Tick m)) = deps st /\ cleanup (step st (Tick m)) = cleanup st.
Proof.
  cbn [step]. destruct (Timers.fire (timers st)) as [[tm p]|]; [|auto].
  unfold showNextParagraph. cbn [closures with_timers].
  destruct (nth_error (closures st) (Timers.owner tm)) as [c|]; [|auto].
  destruct (currentIndex c <? Z.of_nat (length (captured c)))%Z; auto.
Qed.

Lemma chat_ticks_keep_deps (sched : list updater_time) (st : state) :
  deps (ticks sched st) = deps st /\ cleanup (ticks sched st) = cleanup st.
Proof.
  revert st; induction sched as [|m sched IH]; intros st; [auto|].
  unfold ticks, run in *. cbn [map fold_left].
  destruct (IH (step st (Tick m))) as (-> & ->). apply chat_tick_keeps_deps.
Qed.

Lemma live_tick (us : list jsstring) (st : state) (m : updater_time) :
  live_only us st -> live_only us (step st (Tick m)).
Proof.
  intros (Ht & Hs). cbn [step]. unfold Timers.fire.
  destruct (Timers.earliest (Timers.pending (timers st))) as [t|] eqn:He;
    [|split; assumption].
  destruct (Ht t (earliest_In _ He)) as (c & Hn & Hcap).
  assert (Hp : forall u,
    In u (match Timers.period t with
          | Some d =>
              filter (fun u => negb (Nat.eqb (Timers.handle u) (Timers.handle t)))
                (Timers.pending (timers st)) ++
              [{| Timers.handle := Timers.handle t;
                  Timers.due := Z.max (Timers.clock (timers st)) (Timers.due t) + d;
                  Timers.period := Some d; Timers.owner := Timers.owner t |}]
          | None =>
              filter (fun u => negb (Nat.eqb (Timers.handle u) (Timers.handle t)))
                (Timers.pending (timers st))
          end) ->
    exists cl, nth_error (closures st) (Timers.owner u) = Some cl /\
               captured cl = us).
  { intros u Hu.
    assert (In u (Timers.pending (timers st)) \/
            Timers.owner u = Timers.owner t) as [Hin|Eo].
    { destruct (Timers.period t);
        [apply in_app_or in Hu; destruct Hu as [Hu|[<-|[]]]|];
        try (apply filter_In in Hu; tauto). right. reflexivity. }
    - apply Ht. assumption.
    - exists c. rewrite Eo. auto. }
  unfold showNextParagraph. cbn [closures with_timers Timers.owner].
  rewrite Hn.
  destruct (currentIndex c <? Z.of_nat (length (captured c)))%Z;
    [|split; [exact Hp | exact Hs]].
  split; cbn [closures visibleParagraphs timers].
  - intros u Hu. cbn in Hu. apply in_app_or in Hu.
    assert (exists cl, nth_error (closures st) (Timers.owner u) = Some cl /\
                       captured cl = us) as (cl & Hcl & Hcu).
    { destruct Hu as [Hu|[<-|[]]]; [apply Hp; assumption|].
      exists c. auto. }
    destruct (Nat.eq_dec (Timers.owner t) (Timers.owner u)) as [E|E].
    + eexists. split.
      * rewrite <- E. eapply nth_error_store_eq. eassumption.
      * exact Hcap.
    + exists cl. rewrite nth_error_store_ne by assumption. auto.
  - intros s. rewrite strings_app, in_app_iff. intros [Hin|Hin]; [auto|].
    rewrite <- Hcap.
    destruct m; cbn in Hin;
      match type of Hin with
      | In _ (match ?g with _ => _ end) => destruct g eqn:Hg; cbn in Hin
      end; try tauto;
      destruct Hin as [<-|[]]; eapply get_In; eassumption.
Qed.

Lemma live_ticks (us : list jsstring) (sched : list updater_time) (st : state) :
  live_only us st -> live_only us (ticks sched st).
Proof.
  revert st; induction sched as [|m sched IH]; intros st Hst; [exact Hst|].
  unfold ticks, run in *. cbn [map fold_left]. apply IH, live_tick, Hst.
Qed.

(** An effect that starts with no timeout pending only reveals its own
    paragraphs. *)
Lemma live_effect (content : jsstring) (st : state) :
  Timers.pending (timers st) = [] ->
  live_only (uniqueParagraphs content) (effect content false st).
Proof.
  intros Hp. split; cbn.
  - rewrite Hp. cbn. intros t [<-|[]]. cbn.
    eexists. rewrite nth_error_app2, Nat.sub_diag by reflexivity. cbn. auto.
  - intros s [].
Qed.

Lemma live_advance (us : list jsstring) (st : state) (t : Z) :
  live_only us st ->
  live_only us (with_timers st (Timers.advance t (timers st))).
Proof. intros H. exact H. Qed.

End ChatRestart.

(** X14: when the content of a non-user [ChatMessage] is replaced before
    the first tick of its session, or after the session has ended (more
    than [n + 1] ticks for [n] paragraphs), the new session only ever
    reveals paragraphs of the new content, however React calls the
    updaters. *)
Theorem X14_chat_restart_between_sessions (old new : jsstring) (t : Z)
  (before after : list updater_time) :
  before = [] \/ S (length (uniqueParagraphs old)) < length before ->
  let st :=
    ChatMessage.ticks after
      (ChatMessage.step
         (ChatMessage.ticks before (ChatMessage.start old false))
         (ChatMessage.Props t new false)) in
  forall s, In s (strings (ChatMessage.visibleParagraphs st)) ->
            In s (uniqueParagraphs new).
Proof.
  intros Hb. cbv zeta.
  apply ChatRestart.live_ticks.
  set (st0 := ChatMessage.ticks before (ChatMessage.start old false)).
  assert (Hlive : ChatLive.live_only (uniqueParagraphs old) st0).
  { apply ChatRestart.live_ticks. apply (ChatRestart.live_effect old).
    reflexivity. }
  destruct (ChatRestart.chat_ticks_keep_deps before (ChatMessage.start old false))
    as (Hd & Hcl). fold st0 in Hd, Hcl.
  cbn [ChatMessage.step].
  destruct (ChatMessage.same_deps _ new false) eqn:Hsame.
  - cbn [ChatMessage.deps ChatMessage.with_timers] in Hsame.
    rewrite Hd in Hsame. cbn in Hsame.
    apply andb_true_iff in Hsame. destruct Hsame as (E & _).
    apply str_eqb_eq in E. subst new. exact Hlive.
  - apply ChatRestart.live_effect.
    assert (Hpend :
      filter (fun u => negb (Nat.eqb (Timers.handle u) 1))
        (Timers.pending (ChatMessage.timers st0)) = []).
    { destruct Hb as [->|Hlong]; [reflexivity|].
      pose proof (ChatProgress.active_any before old) as Ha.
      fold st0 in Ha. unfold ChatMessage.active, Timers.idle in Ha.
      destruct (Nat.leb_spec (length before)
                  (S (length (uniqueParagraphs old)))); [lia|].
      destruct (Timers.pending (ChatMessage.timers st0)); [reflexivity|].
      discriminate. }
    unfold ChatMessage.run_cleanup.
    cbn [ChatMessage.cleanup ChatMessage.with_timers]. rewrite Hcl.
    exact Hpend.
Qed.

Lemma X14_chat_restart_between_sessions_witness :
  let st :=
    ChatMessage.ticks [AtRender; AtCall]
      (ChatMessage.step
         (ChatMessage.ticks [AtRender; AtRender; AtRender]
            (ChatMessage.start (lit "X") false))
         (ChatMessage.Props 5000 (text ["Y"; "Z"]) false)) in
  2 < 3 /\
  ChatMessage.visibleParagraphs st = [str (lit "Y"); str (lit "Y")] /\
  In (lit "Y") (uniqueParagraphs (text ["Y"; "Z"])).
Proof.
  cbv zeta. split; [lia|]. split; [reflexivity|].
  apply (@X14_chat_restart_between_sessions (lit "X") (text ["Y"; "Z"]) 5000
           [AtRender; AtRender; AtRender] [AtRender; AtCall]).
  - right. cbn. lia.
  - vm_compute. left. reflexivity.
Defined.

(* ================================================================== *)
(** ** ChatMessage: every chain of timeouts ends                       *)
(* ================================================================== *)

Lemma filter_drops {A : Type} (p : A -> bool) (l : list A) (x : A) :
  In x l -> p x = false -> length (filter p l) < length l.
Proof.
  induction l as [|y l IH]; intros Hin Hx; [destruct Hin|].
  pose proof (filter_length_le p l) as Hle. cbn.
  destruct Hin as [->|Hin].
  - rewrite Hx. lia.
  - specialize (IH Hin Hx). destruct (p y); cbn; lia.
Qed.

Lemma list_sum_store {A : Type} (f : A -> nat) (l : list A) (i : nat) (x c : A) :
  nth_error l i = Some c ->
  list_sum (map f (store i x l)) + f c = list_sum (map f l) + f x.
Proof.
  revert i; induction l as [|y l IH]; intros [|i];
    cbn [nth_error store map list_sum fold_right]; try discriminate.
  - intros [= ->]. fold (list_sum (map f l)). lia.
  - intros Hi. specialize (IH _ Hi).
    fold (list_sum (map f l)). fold (list_sum (map f (store i x l))). lia.
Qed.

Module ChatDrain.
Import ChatMessage ChatLive.

Lemma timeouts_step (st : state) (e : event) :
  timeouts_only st -> timeouts_only (step st e).
Proof.
  intros Hst. destruct e as [t content isUser|m]; cbn [step].
  - destruct (same_deps _ content isUser); [exact Hst|].
    assert (Hc : timeouts_only
                   (run_cleanup (with_timers st (Timers.advance t (timers st))))).
    { unfold run_cleanup. cbn [cleanup with_timers].
      destruct (cleanup st); [|exact Hst].
      intros u Hu. cbn in Hu. apply filter_In in Hu. apply Hst. tauto. }
    unfold effect. destruct isUser; cbn [negb]; [exact Hc|].
    intros u Hu. cbn in Hu. apply in_app_or in Hu.
    destruct Hu as [Hu|[<-|[]]]; [apply Hc; assumption | reflexivity].
  - unfold Timers.fire.
    destruct (Timers.earliest (Timers.pending (timers st))) as [t|] eqn:He;
      [|exact Hst].
    rewrite (Hst t (earliest_In _ He)).
    unfold showNextParagraph. cbn [closures with_timers].
    assert (Hrest : forall u,
              In u (filter (fun u => negb (Nat.eqb (Timers.handle u) (Timers.handle t)))
                      (Timers.pending (timers st))) ->
              Timers.period u = None).
    { intros u Hu. apply filter_In in Hu. apply Hst. tauto. }
    destruct (nth_error (closures st) (Timers.owner t)) as [c|]; [|exact Hrest].
    destruct (currentIndex c <? Z.of_nat (length (captured c)))%Z; [|exact Hrest].
    intros u Hu. cbn in Hu. apply in_app_or in Hu.
    destruct Hu as [Hu|[<-|[]]]; [apply Hrest; assumption | reflexivity].
Qed.

Lemma timeouts_run (st : state) (es : list event) :
  timeouts_only st -> timeouts_only (run st es).
Proof.
  revert st; induction es as [|e es IH]; intros st Hst; [exact Hst|].
  cbn. apply IH, timeouts_step, Hst.
Qed.

(** A tick that fires a timeout uses up fuel. *)
Lemma tick_burns (st : state) (m : updater_time) :
  timeouts_only st ->
  Timers.pending (timers st) <> [] ->
  fuel (step st (Tick m)) < fuel st.
Proof.
  intros Hst Hne. cbn [step]. unfold Timers.fire.
  destruct (Timers.earliest (Timers.pending (timers st))) as [t|] eqn:He.
  2:{ destruct (Timers.pending (timers st)) as [|u l]; [congruence|].
      cbn in He. destruct (Timers.earliest l) as [v|];
        [destruct (Timers.due v <? Timers.due u)%Z|]; discriminate. }
  pose proof (earliest_In _ He) as Hin.
  rewrite (Hst t Hin).
  assert (Hdrop :
    length (filter (fun u => negb (Nat.eqb (Timers.handle u) (Timers.handle t)))
              (Timers.pending (timers st))) <
    length (Timers.pending (timers st))).
  { apply (filter_drops _ _ t Hin). rewrite Nat.eqb_refl. reflexivity. }
  unfold showNextParagraph. cbn [closures with_timers].
  destruct (nth_error (closures st) (Timers.owner t)) as [c|] eqn:Hn;
    [|unfold fuel; cbn [closures timers Timers.pending with_timers]; lia].
  destruct (Z.ltb_spec (currentIndex c) (Z.of_nat (length (captured c))))
    as [Hlt|Hge]; [|unfold fuel; cbn [closures timers Timers.pending with_timers]; lia].
  unfold fuel. cbn [closures timers with_timers].
  cbn [Timers.setTimeout Timers.arm snd Timers.pending].
  rewrite length_app. cbn [length].
  pose proof (list_sum_store left_to_read (closures st) (Timers.owner t)
                {| captured := captured c; currentIndex := currentIndex c + 1 |}
                Hn) as Hsum.
  assert (Hone :
    left_to_read {| captured := captured c; currentIndex := currentIndex c + 1 |}
      + 1 = left_to_read c)
    by (unfold left_to_read; cbn [captured currentIndex]; lia).
  lia.
Qed.

Lemma drained (sched : list updater_time) (st : state) :
  timeouts_only st ->
  fuel st <= length sched ->
  Timers.pending (timers (ticks sched st)) = [].
Proof.
  revert st; induction sched as [|m sched IH]; intros st Hst Hf.
  - unfold fuel in Hf. cbn in *.
    destruct (Timers.pending (timers st)); [reflexivity | cbn in Hf; lia].
  - destruct (Timers.pending (timers st)) as [|u l] eqn:Hp.
    + rewrite ChatSession.chat_idle_ticks by assumption. assumption.
    + unfold ticks, run in *. cbn [map fold_left]. apply IH.
      * apply timeouts_step. assumption.
      * assert (fuel (step st (Tick m)) < fuel st)
          by (apply tick_burns; [assumption | rewrite Hp; discriminate]).
        cbn [length] in Hf. lia.
Qed.

End ChatDrain.

(** X15: every chain of timeouts of [ChatMessage] ends.  In any state the
    component reaches, through whatever contents and ticks, count the
    pending timeouts and, for every closure, the entries between its
    cursor and the end of its paragraphs: after that many ticks no timeout
    is pending, and further ticks change nothing.  A session just started
    on [n] paragraphs has the count [n + 2]. *)
Theorem X15_timeouts_run_out (es : list ChatMessage.event)
  (sched more : list updater_time) :
  let st := ChatMessage.run ChatMessage.initial es in
  ChatLive.fuel st <= length sched ->
  ChatMessage.active (ChatMessage.ticks sched st) = false /\
  ChatMessage.ticks (sched ++ more) st = ChatMessage.ticks sched st.
Proof.
  cbv zeta. intros Hf.
  assert (Hp : Timers.pending
                 (ChatMessage.timers
                    (ChatMessage.ticks sched
                       (ChatMessage.run ChatMessage.initial es))) = []).
  { apply ChatDrain.drained; [|assumption].
    apply ChatDrain.timeouts_run. intros t []. }
  split.
  - unfold ChatMessage.active, Timers.idle. rewrite Hp. reflexivity.
  - unfold ChatMessage.ticks, ChatMessage.run at 1.
    rewrite map_app, fold_left_app.
    apply ChatSession.chat_idle_ticks. exact Hp.
Qed.

Lemma X15_timeouts_run_out_witness :
  let es :=
    [ChatMessage.Props 0 (text ["X"; "W"]) false; ChatMessage.Tick AtRender;
     ChatMessage.Props 200 (text ["Y"; "Z"]) false] in
  let st := ChatMessage.run ChatMessage.initial es in
  ChatLive.fuel st = 7 /\
  ChatMessage.active (ChatMessage.ticks (repeat AtRender 6) st) = true /\
  ChatMessage.active (ChatMessage.ticks (repeat AtRender 7) st) = false.
Proof.
  cbv zeta. split; [reflexivity|]. split; [reflexivity|].
  apply (@X15_timeouts_run_out
           [ChatMessage.Props 0 (text ["X"; "W"]) false;
            ChatMessage.Tick AtRender;
            ChatMessage.Props 200 (text ["Y"; "Z"]) false]
           (repeat AtRender 7) []).
  vm_compute. repeat constructor.
Defined.

(* ================================================================== *)
(** ** The shape of the derived paragraphs                             *)
(* ================================================================== *)

Lemma trim_ends_clean (s : jsstring) : starts_clean (rev (trim s)).
Proof.
  unfold trim, trimEnd. rewrite rev_involutive. apply trimStart_clean.
Qed.

Lemma keep_first_length (l : list jsstring) :
  length (keep_first l) <= length l.
Proof.
  induction l as [|x l IH]; cbn; [lia|].
  pose proof (filter_length_le (fun y => negb (str_eqb y x)) (keep_first l)).
  lia.
Qed.

Lemma paragraphs_fixed (a : list jsstring) :
  Forall (fun p => trim p <> [] /\ ~ In LF p) a ->
  paragraphs (join LF a) = a.
Proof.
  intros Ha. rewrite Forall_forall in Ha. unfold paragraphs.
  destruct a as [|p a]; [reflexivity|].
  rewrite split_join;
    [| discriminate | apply Forall_forall; intros q Hq; apply Ha; assumption ].
  apply filter_all. intros q Hq. destruct (Ha q Hq) as (Hne & _).
  destruct (trim q); [congruence | reflexivity].
Qed.

Lemma paragraphs_In (content p : jsstring) :
  In p (paragraphs content) ->
  trim p <> [] /\ ~ In LF p /\ In p (split LF content).
Proof.
  unfold paragraphs. rewrite filter_In. intros (Hp & Hne).
  split; [intros E; rewrite E in Hne; discriminate|].
  split; [eapply split_no_sep; eassumption | assumption].
Qed.

(** X16: what the two components derive from any content.  A paragraph of
    [ChatMessage] is never empty, holds no line break, and neither begins
    nor ends with white space.  A paragraph of [TypingMessage] is a line of
    the content that is not blank.  [ChatMessage] derives at most as many
    paragraphs as [TypingMessage], which derives at most one more than the
    content has line breaks. *)
Theorem X16_paragraph_shape (content : jsstring) :
  Forall
    (fun u => u <> [] /\ ~ In LF u /\ starts_clean u /\
              starts_clean (rev u) /\ trim u = u)
    (uniqueParagraphs content) /\
  Forall
    (fun p => trim p <> [] /\ ~ In LF p /\ In p (split LF content))
    (paragraphs content) /\
  length (uniqueParagraphs content) <= length (paragraphs content) /\
  length (paragraphs content) <= S (count_occ N.eq_dec content LF).
Proof.
  split; [|split; [|split]].
  - apply Forall_forall. intros u Hu.
    destruct (uniqueParagraphs_In _ _ Hu) as (Hne & p & Hp & ->).
    split; [assumption|]. split.
    { intros Hin. apply trim_In in Hin. revert Hin.
      eapply split_no_sep; eassumption. }
    split; [apply trimEnd_clean, trimStart_clean|].
    split; [apply trim_ends_clean | apply trim_idempotent].
  - apply Forall_forall. intros p. apply paragraphs_In.
  - rewrite uniqueParagraphs_spec. unfold spec_units.
    rewrite paragraphs_trimmed.
    etransitivity; [apply keep_first_length|]. rewrite length_map. lia.
  - rewrite <- split_length. unfold paragraphs. apply filter_length_le.
Qed.

Lemma X16_paragraph_shape_witness :
  uniqueParagraphs (text [" A "; String.EmptyString; "A"; " B"]) = [lit "A"; lit "B"] /\
  Forall (fun u => u <> [] /\ ~ In LF u /\ starts_clean u /\
                   starts_clean (rev u) /\ trim u = u)
    [lit "A"; lit "B"].
Proof.
  split; [reflexivity|].
  exact (proj1 (X16_paragraph_shape (text [" A "; String.EmptyString; "A"; " B"]))).
Defined.

(** X17: deriving the paragraphs of [TypingMessage] again from its
    paragraphs joined by line breaks gives the same paragraphs. *)
Theorem X17_typing_derivation_idempotent (s : jsstring) :
  paragraphs (join LF (paragraphs s)) = paragraphs s.
Proof.
  apply paragraphs_fixed. apply Forall_forall. intros p Hp.
  destruct (paragraphs_In _ _ Hp) as (Hne & Hlf & _). auto.
Qed.
